(** * cf-workers-proxy: the worker of [src/_worker.js] and its specification

    The worker is a host-rewriting reverse proxy.  This development embeds
    the JavaScript of [_worker.js] function by function and settles the
    claims of the specification on the embedding.

    Modelling choices.
    - A JavaScript string is a [string]: a sequence of 8-bit characters, read
      as the code units U+0000..U+00FF.
    - [Headers] is the list of pairs that iterating the object yields, with
      lower-case names and one entry per name.  What the platform does with
      a name that has several entries (only [set-cookie] can have them) is
      not modelled; the statements that depend on it assume one entry per
      name.
    - A response body is absent, a stream or a text.  A stream is given by
      the text that decoding it yields, which is what [text()] returns.
    - An expression that can throw returns a [completion]: [Normal v], or
      [Throw e] for the exception the source raises.  [OutOfModel] marks a
      run that leaves the embedded fragment of the platform (a pattern the
      regular expression reader below does not cover, a redirect).
    - [new RegExp(src)], [RegExp.prototype.test] and
      [String.prototype.replace] are platform code, and so is
      [Response.redirect], which parses a URL.  The worker is written
      over the class [Platform] that provides them; what depends on the
      control flow of the worker alone is proved for every platform.
      Module [RegExp] embeds the three operations for a fragment of the
      pattern language: a backtracking matcher in continuation passing
      style after the ECMAScript definition, and a reader from pattern text
      to syntax trees.  The instance [fragment] is the platform on which
      the properties of the substitution are proved.
    - [new Response(body, init)] is embedded with the two checks of its
      definition: the status must lie in 200..599, and a status that
      allows no body (101, 204, 205, 304) must come with no body. *)

From Stdlib Require Import String Ascii List Arith Lia Bool.
Import ListNotations.

Local Open Scope char_scope.
Local Open Scope list_scope.

(** ** Completions *)

Inductive error : Type :=
| TypeError
| RangeError
| SyntaxError
| NetworkError.

Inductive completion (A : Type) : Type :=
| Normal (a : A)
| Throw (e : error)
| OutOfModel.

Arguments Normal {A} a.
Arguments Throw {A} e.
Arguments OutOfModel {A}.

Definition bind {A B : Type} (c : completion A) (f : A -> completion B)
  : completion B :=
  match c with
  | Normal a => f a
  | Throw e => Throw e
  | OutOfModel => OutOfModel
  end.

Notation "x <- c ;; k" := (bind c (fun x => k))
  (at level 61, c at next level, right associativity).

(** [a || b] of JavaScript on completions of booleans: [b] is evaluated
    only when [a] is false. *)
Definition or_else (a : completion bool) (b : completion bool)
  : completion bool :=
  x <- a ;; if x then Normal true else b.

(** ** Characters and strings *)

Definition chars (s : string) : list ascii := list_ascii_of_string s.
Definition text (l : list ascii) : string := string_of_list_ascii l.

Definition in_range (lo hi : nat) (c : ascii) : bool :=
  Nat.leb lo (nat_of_ascii c) && Nat.leb (nat_of_ascii c) hi.

Definition is_digit (c : ascii) : bool := in_range 48 57 c.
Definition is_upper (c : ascii) : bool := in_range 65 90 c.
Definition is_lower (c : ascii) : bool := in_range 97 122 c.

(** The class [\w] of a pattern without the [u] and [i] flags. *)
Definition is_word_char (c : ascii) : bool :=
  is_digit c || is_upper c || is_lower c || Ascii.eqb c "_".

(** Line terminators below U+0100: LF and CR. *)
Definition is_line_terminator (c : ascii) : bool :=
  Ascii.eqb c "010" || Ascii.eqb c "013".

(** [String.prototype.toLowerCase] on the code units below U+0100. *)
Definition lower_char (c : ascii) : ascii :=
  if is_upper c then ascii_of_nat (nat_of_ascii c + 32)
  else if in_range 192 222 c && negb (Nat.eqb (nat_of_ascii c) 215)
       then ascii_of_nat (nat_of_ascii c + 32)
       else c.

Definition toLowerCase (s : string) : string :=
  text (map lower_char (chars s)).

(** [p] is a prefix of [l]. *)
Fixpoint starts_with (p l : list ascii) : bool :=
  match p, l with
  | [], _ => true
  | a :: p', b :: l' => Ascii.eqb a b && starts_with p' l'
  | _ :: _, [] => false
  end.

Fixpoint contains (p l : list ascii) : bool :=
  starts_with p l ||
  match l with
  | [] => false
  | _ :: l' => contains p l'
  end.

(** [s.startsWith(p)] and [s.includes(p)]. *)
Definition startsWith (s p : string) : bool := starts_with (chars p) (chars s).
Definition includes (s p : string) : bool := contains (chars p) (chars s).

(** ** Regular expressions *)

Module RegExp.

(** *** Syntax *)

Inductive atom : Type :=
| Lit (c : ascii)      (* a pattern character, or an identity escape *)
| Dot                  (* .  *)
| Digit                (* \d *)
| Word.                (* \w *)

Inductive regex : Type :=
| Empty
| Atom (a : atom)
| Bol                  (* ^ *)
| Eol                  (* $ *)
| WordB                (* \b *)
| NotWordB             (* \B *)
| NotBehind (a : atom) (* (?<!a), one atom wide *)
| Seq (r1 r2 : regex)
| Alt (r1 r2 : regex)  (* r1|r2 *)
| Star (r : regex)     (* r*, greedy *)
| Plus (r : regex)     (* r+, greedy *)
| Opt (r : regex)      (* r?, greedy *)
| Group (r : regex).   (* (r), capturing *)

(** Number of capturing groups, which are numbered from 1 by the position
    of their left parenthesis. *)
Fixpoint ngroups (r : regex) : nat :=
  match r with
  | Seq r1 r2 | Alt r1 r2 => ngroups r1 + ngroups r2
  | Star r1 | Plus r1 | Opt r1 => ngroups r1
  | Group r1 => S (ngroups r1)
  | _ => 0
  end.

(** *** Reading a pattern *)

Inductive token : Type :=
| TBol | TEol | TBackslash | TLParen | TRParen | TBar
| TStar | TPlus | TQuest | TDot | TOther | TLit.

Definition classify (c : ascii) : token :=
  if Ascii.eqb c "^" then TBol
  else if Ascii.eqb c "$" then TEol
  else if Ascii.eqb c "\" then TBackslash
  else if Ascii.eqb c "(" then TLParen
  else if Ascii.eqb c ")" then TRParen
  else if Ascii.eqb c "|" then TBar
  else if Ascii.eqb c "*" then TStar
  else if Ascii.eqb c "+" then TPlus
  else if Ascii.eqb c "?" then TQuest
  else if Ascii.eqb c "." then TDot
  else if Ascii.eqb c "[" || Ascii.eqb c "]"
          || Ascii.eqb c "{" || Ascii.eqb c "}" then TOther
  else TLit.

(** The atom escapes of the fragment: [\d], [\w] and the identity escapes
    of the syntax characters, of [/] and of [-]. *)
Definition escape_atom (e : ascii) : option atom :=
  if Ascii.eqb e "d" then Some Digit
  else if Ascii.eqb e "w" then Some Word
  else match classify e with
       | TLit => if Ascii.eqb e "/" || Ascii.eqb e "-"
                 then Some (Lit e) else None
       | _ => Some (Lit e)
       end.

(** One atom, for the body of a lookbehind. *)
Definition parse_atom (s : list ascii) : option (atom * list ascii) :=
  match s with
  | [] => None
  | c :: rest =>
      match classify c with
      | TLit => Some (Lit c, rest)
      | TDot => Some (Dot, rest)
      | TBackslash =>
          match rest with
          | [] => None
          | e :: rest' =>
              match escape_atom e with
              | Some a => Some (a, rest')
              | None => None
              end
          end
      | _ => None
      end
  end.

(** A greedy quantifier after an atom; lazy and counted quantifiers are
    outside the fragment. *)
Definition no_lazy (r : regex) (s : list ascii) : option (regex * list ascii) :=
  match s with
  | c :: _ => match classify c with TQuest => None | _ => Some (r, s) end
  | [] => Some (r, s)
  end.

Definition quantify (r : regex) (s : list ascii) : option (regex * list ascii) :=
  match s with
  | [] => Some (r, s)
  | c :: rest =>
      match classify c with
      | TStar => no_lazy (Star r) rest
      | TPlus => no_lazy (Plus r) rest
      | TQuest => no_lazy (Opt r) rest
      | TOther => if Ascii.eqb c "{" then None else Some (r, s)
      | _ => Some (r, s)
      end
  end.

Definition expect_rparen (s : list ascii) : option (list ascii) :=
  match s with
  | c :: rest => match classify c with TRParen => Some rest | _ => None end
  | [] => None
  end.

(** What follows a left parenthesis: [(?:], [(?<!], another [(?] form
    (outside the fragment), or the body of a capturing group. *)
Inductive group_kind_t : Type :=
| Capturing
| NonCapturing (rest : list ascii)
| NegLookbehind (rest : list ascii)
| OtherGroup.

Definition group_kind (s : list ascii) : group_kind_t :=
  match s with
  | q :: s1 =>
      match classify q with
      | TQuest =>
          match s1 with
          | c1 :: s2 =>
              if Ascii.eqb c1 ":" then NonCapturing s2
              else if Ascii.eqb c1 "<" then
                     match s2 with
                     | c2 :: s3 =>
                         if Ascii.eqb c2 "!" then NegLookbehind s3
                         else OtherGroup
                     | [] => OtherGroup
                     end
                   else OtherGroup
          | [] => OtherGroup
          end
      | _ => Capturing
      end
  | [] => Capturing
  end.

(** Disjunction, Alternative and Term of the ECMAScript pattern grammar.
    [fuel] bounds the depth of the descent. *)
Fixpoint parse_disj (fuel : nat) (s : list ascii) {struct fuel}
  : option (regex * list ascii) :=
  match fuel with
  | 0 => None
  | S f =>
      match parse_alt f s with
      | Some (a, s1) =>
          match s1 with
          | c :: s2 =>
              match classify c with
              | TBar =>
                  match parse_disj f s2 with
                  | Some (d, s3) => Some (Alt a d, s3)
                  | None => None
                  end
              | _ => Some (a, s1)
              end
          | [] => Some (a, s1)
          end
      | None => None
      end
  end

with parse_alt (fuel : nat) (s : list ascii) {struct fuel}
  : option (regex * list ascii) :=
  match fuel with
  | 0 => None
  | S f =>
      match s with
      | [] => Some (Empty, s)
      | c :: _ =>
          match classify c with
          | TBar | TRParen => Some (Empty, s)
          | _ =>
              match parse_term f s with
              | Some (t, s1) =>
                  match parse_alt f s1 with
                  | Some (r, s2) => Some (Seq t r, s2)
                  | None => None
                  end
              | None => None
              end
          end
      end
  end

with parse_term (fuel : nat) (s : list ascii) {struct fuel}
  : option (regex * list ascii) :=
  match fuel with
  | 0 => None
  | S f =>
      match s with
      | [] => None
      | c :: rest =>
          match classify c with
          | TBol => Some (Bol, rest)
          | TEol => Some (Eol, rest)
          | TDot => quantify (Atom Dot) rest
          | TLit => quantify (Atom (Lit c)) rest
          | TBackslash =>
              match rest with
              | [] => None
              | e :: rest' =>
                  if Ascii.eqb e "b" then Some (WordB, rest')
                  else if Ascii.eqb e "B" then Some (NotWordB, rest')
                  else match escape_atom e with
                       | Some a => quantify (Atom a) rest'
                       | None => None
                       end
              end
          | TLParen =>
              match group_kind rest with
              | Capturing =>
                  match parse_disj f rest with
                  | Some (d, s1) =>
                      match expect_rparen s1 with
                      | Some s2 => quantify (Group d) s2
                      | None => None
                      end
                  | None => None
                  end
              | NonCapturing rest2 =>
                  match parse_disj f rest2 with
                  | Some (d, s1) =>
                      match expect_rparen s1 with
                      | Some s2 => quantify d s2
                      | None => None
                      end
                  | None => None
                  end
              | NegLookbehind rest2 =>
                  match parse_atom rest2 with
                  | Some (a, s1) =>
                      match expect_rparen s1 with
                      | Some s2 => Some (NotBehind a, s2)
                      | None => None
                      end
                  | None => None
                  end
              | OtherGroup => None
              end
          | _ => None
          end
      end
  end.

Definition parse_fuel (s : list ascii) : nat := 3 * length s + 3.

(** [new RegExp(src)] on the fragment; [None] is a pattern outside it. *)
Definition parse (src : string) : option regex :=
  match parse_disj (parse_fuel (chars src)) (chars src) with
  | Some (r, []) => Some r
  | _ => None
  end.

(** *** Matching *)

(** A position in the subject: the characters before it, nearest first, and
    the characters from it on. *)
Record state : Type := State { before : list ascii; after : list ascii }.

Definition start (l : list ascii) : state := State [] l.

(** One character forward. *)
Definition advance (x : state) : option state :=
  match after x with
  | c :: rest => Some (State (c :: before x) rest)
  | [] => None
  end.

(** The captures: group number and captured text, latest first. *)
Definition captures : Type := list (nat * list ascii).

Fixpoint capture (n : nat) (c : captures) : option (list ascii) :=
  match c with
  | [] => None
  | (k, v) :: c' => if Nat.eqb k n then Some v else capture n c'
  end.

(** The captures of the groups [g .. g+n-1] become undefined. *)
Definition clear (g n : nat) (c : captures) : captures :=
  filter (fun kv => negb (Nat.leb g (fst kv) && Nat.ltb (fst kv) (g + n))) c.

Definition atom_matches (a : atom) (c : ascii) : bool :=
  match a with
  | Lit d => Ascii.eqb d c
  | Dot => negb (is_line_terminator c)
  | Digit => is_digit c
  | Word => is_word_char c
  end.

Definition word_before (x : state) : bool :=
  match before x with
  | c :: _ => is_word_char c
  | [] => false
  end.

Definition word_after (x : state) : bool :=
  match after x with
  | c :: _ => is_word_char c
  | [] => false
  end.

(** IsWordChar(e-1) differs from IsWordChar(e). *)
Definition at_boundary (x : state) : bool :=
  xorb (word_before x) (word_after x).

(** The text between two positions of one subject, [x] before [y]. *)
Definition between (x y : state) : list ascii :=
  rev (firstn (length (before y) - length (before x)) (before y)).

Definition moved (x y : state) : bool :=
  negb (Nat.eqb (length (after x)) (length (after y))).

Definition result : Type := option (state * captures).
Definition cont : Type := state -> captures -> result.

Definition orelse (a b : result) : result :=
  match a with
  | Some _ => a
  | None => b
  end.

(** RepeatMatcher with min = 0 and no upper bound: [body] once more, then
    the rest, else the continuation.  An iteration that matches the empty
    text fails.  [n] bounds the iterations; each one moves forward. *)
Fixpoint repeat (body : state -> captures -> cont -> result) (k : cont)
  (n : nat) (x : state) (c : captures) {struct n} : result :=
  match n with
  | 0 => k x c
  | S n' =>
      orelse
        (body x c (fun y c' => if moved x y then repeat body k n' y c' else None))
        (k x c)
  end.

(** The matcher of [r], whose first group has number [g], run from [x]
    with captures [c] and continuation [k]. *)
Fixpoint m (r : regex) (g : nat) (x : state) (c : captures) (k : cont)
  {struct r} : result :=
  match r with
  | Empty => k x c
  | Atom a =>
      match after x with
      | ch :: rest =>
          if atom_matches a ch then k (State (ch :: before x) rest) c else None
      | [] => None
      end
  | Bol => match before x with [] => k x c | _ :: _ => None end
  | Eol => match after x with [] => k x c | _ :: _ => None end
  | WordB => if at_boundary x then k x c else None
  | NotWordB => if at_boundary x then None else k x c
  | NotBehind a =>
      match before x with
      | ch :: _ => if atom_matches a ch then None else k x c
      | [] => k x c
      end
  | Seq r1 r2 => m r1 g x c (fun y c' => m r2 (g + ngroups r1) y c' k)
  | Alt r1 r2 => orelse (m r1 g x c k) (m r2 (g + ngroups r1) x c k)
  | Star r1 =>
      repeat (fun y c' k' => m r1 g y (clear g (ngroups r1) c') k') k
        (S (length (after x))) x c
  | Plus r1 =>
      m r1 g x (clear g (ngroups r1) c)
        (fun y c' =>
           repeat (fun z c2 k' => m r1 g z (clear g (ngroups r1) c2) k') k
             (S (length (after y))) y c')
  | Opt r1 =>
      orelse
        (m r1 g x (clear g (ngroups r1) c)
           (fun y c' => if moved x y then k y c' else None))
        (k x c)
  | Group r1 =>
      m r1 (S g) x c (fun y c' => k y ((g, between x y) :: c'))
  end.

(** A match of the whole pattern that starts at [x]: where it ends, and
    the captures. *)
Definition match_at (r : regex) (x : state) : result :=
  m r 1 x [] (fun y c => Some (y, c)).

(** RegExpBuiltinExec without the sticky flag: the first position from [x]
    on where the pattern matches. *)
Fixpoint search (r : regex) (bef aft : list ascii) {struct aft}
  : option (state * state * captures) :=
  match match_at r (State bef aft) with
  | Some (y, c) => Some (State bef aft, y, c)
  | None =>
      match aft with
      | ch :: rest => search r (ch :: bef) rest
      | [] => None
      end
  end.

(** [re.test(s)] for a pattern without the [g] and [y] flags. *)
Definition test (r : regex) (s : string) : bool :=
  match search r [] (chars s) with
  | Some _ => true
  | None => false
  end.

(** *** Replacing *)

Definition digit_value (c : ascii) : nat := nat_of_ascii c - 48.

(** GetSubstitution: the replacement template [t] for the match from [x] to
    [y] with captures [c] of a pattern with [ng] groups. *)
Fixpoint substitution (ng : nat) (x y : state) (c : captures)
  (t : list ascii) {struct t} : list ascii :=
  match t with
  | [] => []
  | d :: t1 =>
      if negb (Ascii.eqb d "$") then d :: substitution ng x y c t1
      else
        match t1 with
        | [] => [d]
        | e :: t2 =>
            if Ascii.eqb e "$" then "$" :: substitution ng x y c t2
            else if Ascii.eqb e "&" then between x y ++ substitution ng x y c t2
            else if Ascii.eqb e "`" then rev (before x) ++ substitution ng x y c t2
            else if Ascii.eqb e "'" then after y ++ substitution ng x y c t2
            else if is_digit e then
              let one := digit_value e in
              let group n :=
                match capture n c with Some v => v | None => [] end in
              match t2 with
              | e2 :: t3 =>
                  let two := 10 * one + digit_value e2 in
                  if is_digit e2 && Nat.leb 1 two && Nat.leb two ng
                  then group two ++ substitution ng x y c t3
                  else if Nat.leb 1 one && Nat.leb one ng
                       then group one ++ substitution ng x y c t2
                       else d :: e :: substitution ng x y c t2
              | [] =>
                  if Nat.leb 1 one && Nat.leb one ng
                  then group one
                  else [d; e]
              end
            else d :: substitution ng x y c t1
        end
  end.

(** [s.replace(re, t)] for a pattern with the [g] flag, from position [x]
    on: the matches are found left to right, each search starts where the
    last match ended, or one character later when that match was empty. *)
Fixpoint replace_from (fuel : nat) (r : regex) (t : list ascii) (x : state)
  {struct fuel} : list ascii :=
  match fuel with
  | 0 => after x
  | S f =>
      match match_at r x with
      | Some (y, c) =>
          substitution (ngroups r) x y c t ++
          (if moved x y then replace_from f r t y
           else match after y with
                | ch :: rest =>
                    ch :: replace_from f r t (State (ch :: before y) rest)
                | [] => []
                end)
      | None =>
          match after x with
          | ch :: rest =>
              ch :: replace_from f r t (State (ch :: before x) rest)
          | [] => []
          end
      end
  end.

Definition replace (r : regex) (s t : string) : string :=
  text (replace_from (S (length (chars s))) r (chars t) (start (chars s))).

End RegExp.

(** ** The worker *)

Module Worker.

Local Open Scope string_scope.

(** *** Platform objects *)

(** [Headers]: the pairs of the iteration; names are lower case, one entry
    per name. *)
Definition Headers : Type := list (string * string).

Fixpoint get (h : Headers) (name : string) : option string :=
  match h with
  | [] => None
  | (k, v) :: h' => if String.eqb k name then Some v else get h' name
  end.

Definition has (h : Headers) (name : string) : bool :=
  match get h name with
  | Some _ => true
  | None => false
  end.

Fixpoint set (h : Headers) (name value : string) : Headers :=
  match h with
  | [] => [(name, value)]
  | (k, v) :: h' =>
      if String.eqb k name then (k, value) :: h' else (k, v) :: set h' name value
  end.

Definition delete (h : Headers) (name : string) : Headers :=
  filter (fun kv => negb (String.eqb (fst kv) name)) h.

(** The parts of a [URL] the worker reads and writes; [host] stands for
    [hostname], ports are not modelled. *)
Record URL : Type := {
  protocol : string;
  host : string;
  pathname : string;
  search : string
}.

Record Request : Type := {
  url : URL;
  method : string;
  headers : Headers;
  body : string;
  redirect : string
}.

(** A response body: none ([body] is [null]), the stream the upstream
    sent, given by the text that decoding it yields, or a text built by the
    worker. *)
Inductive Body : Type :=
| NoBody
| Stream (decoded : string)
| Text (s : string).

Record Response : Type := {
  status : nat;
  resp_headers : Headers;
  resp_body : Body
}.

(** [await response.text()]. *)
Definition body_text (r : Response) : string :=
  match resp_body r with
  | NoBody => ""
  | Stream decoded => decoded
  | Text s => s
  end.

(** [new Response(body, {status, headers})].  A status outside 200..599
    is a RangeError; a body with a status that allows none is a TypeError.
    (A text without a content type would get the one of a text; the worker
    makes a text the body only under a content type.) *)
Definition null_body_status (s : nat) : bool :=
  Nat.eqb s 101 || Nat.eqb s 204 || Nat.eqb s 205 || Nat.eqb s 304.

Definition is_null (b : Body) : bool :=
  match b with
  | NoBody => true
  | _ => false
  end.

Definition new_Response (b : Body) (s : nat) (h : Headers)
  : completion Response :=
  if negb (Nat.leb 200 s && Nat.leb s 599) then Throw RangeError
  else if negb (is_null b) && null_body_status s then Throw TypeError
  else Normal {| status := s; resp_headers := h; resp_body := b |}.

(** [env]: every binding is a string or is absent. *)
Record Env : Type := {
  PROXY_HOSTNAME : option string;
  PROXY_PROTOCOL : option string;
  PATHNAME_REGEX : option string;
  UA_WHITELIST_REGEX : option string;
  UA_BLACKLIST_REGEX : option string;
  URL302 : option string;
  IP_WHITELIST_REGEX : option string;
  IP_BLACKLIST_REGEX : option string;
  REGION_WHITELIST_REGEX : option string;
  REGION_BLACKLIST_REGEX : option string;
  DEBUG : option string
}.

(** ToBoolean of a string or undefined. *)
Definition truthy (v : option string) : bool :=
  match v with
  | Some s => negb (String.eqb s "")
  | None => false
  end.

(** ToString of a string or null: the argument conversion of [test]. *)
Definition to_string (v : option string) : string :=
  match v with
  | Some s => s
  | None => "null"
  end.

(** The regular expressions of the platform, as the worker uses them:
    [new RegExp(src)] and [new RegExp(src, "g")], which may throw;
    [re.test(s)] for a pattern without flags; [s.replace(re, t)] for a
    pattern with the [g] flag.  And [Response.redirect(url, status)], which
    throws when the URL cannot be parsed. *)
Class Platform : Type := {
  regexp : Type;
  new_RegExp : string -> completion regexp;
  regexp_test_method : regexp -> string -> bool;
  string_replace : regexp -> string -> string -> string;
  Response_redirect : string -> nat -> completion Response
}.

Section WithPlatform.

Context {platform : Platform}.

(** [new RegExp(src).test(s)]. *)
Definition regexp_test (src s : string) : completion bool :=
  r <- new_RegExp src ;; Normal (regexp_test_method r s).

(** [v.toLowerCase()] where [v] may be null. *)
Definition lower_case_of (v : option string) : completion string :=
  match v with
  | Some s => Normal (toLowerCase s)
  | None => Throw TypeError
  end.

(** *** isGitHubAPIPath, getGitHubProxyHost *)

Definition apiPaths : list string :=
  [ "/repos/"; "/user"; "/users/"; "/orgs/"; "/organizations/"; "/gists/";
    "/search/"; "/rate_limit"; "/emojis"; "/events"; "/feeds";
    "/notifications"; "/meta"; "/octocat"; "/zen"; "/marketplace_listing/";
    "/installation/"; "/app/"; "/applications/" ].

Definition isGitHubAPIPath (pathname : string) : bool :=
  existsb (fun path => startsWith pathname path) apiPaths.

Definition getGitHubProxyHost (baseHostname pathname : string) : string :=
  if String.eqb baseHostname "github.com" && isGitHubAPIPath pathname
  then "api.github.com"
  else baseHostname.

(** *** The substitution primitive *)

(** The template [`(?<!\\.)\\b${hostname}\\b`]. *)
Definition host_pattern (hostname : string) : string :=
  "(?<!\.)\b" ++ hostname ++ "\b".

(** [text.replace(new RegExp(`(?<!\\.)\\b${from}\\b`, "g"), to)]. *)
Definition rewriteText (txt from to : string) : completion string :=
  r <- new_RegExp (host_pattern from) ;; Normal (string_replace r txt to).

(** The loop over the headers shared by [createNewRequest] and
    [setResponseHeaders]: a value that includes [from] is rewritten. *)
Fixpoint rewriteHeaders (h : Headers) (from to : string)
  : completion Headers :=
  match h with
  | [] => Normal []
  | (key, value) :: h' =>
      value' <- (if includes value from
                 then rewriteText value from to
                 else Normal value) ;;
      rest <- rewriteHeaders h' from to ;;
      Normal ((key, value') :: rest)
  end.

(** *** createNewRequest *)

Definition createNewRequest (request : Request) (u : URL)
  (proxyHostname originHostname : string) : completion Request :=
  h <- rewriteHeaders (headers request) originHostname proxyHostname ;;
  let h1 :=
    if String.eqb proxyHostname "api.github.com" then
      let h2 := if has h "user-agent" then h
                else set h "user-agent" "Cloudflare-Workers-Proxy" in
      if has h2 "accept" then h2
      else set h2 "accept" "application/vnd.github+json"
    else h in
  Normal {| url := u; method := method request; headers := h1;
            body := body request; redirect := "follow" |}.

(** *** setResponseHeaders *)

Definition setResponseHeaders (originalResponse : Response)
  (proxyHostname originHostname : string) (debug : option string)
  : completion Headers :=
  h <- rewriteHeaders (resp_headers originalResponse)
         proxyHostname originHostname ;;
  Normal (if truthy debug then delete h "content-security-policy" else h).

(** *** replaceResponseText *)

(** [pathnameRegex.replace(/^\^/, "")]. *)
Definition strip_caret (pathnameRegex : string) : string :=
  match pathnameRegex with
  | String c rest => if Ascii.eqb c "^" then rest else pathnameRegex
  | EmptyString => pathnameRegex
  end.

(** The template [`((?<!\\.)\\b${hostname}\\b)(${pathnameRegex})`]. *)
Definition host_path_pattern (hostname pathnameRegex : string) : string :=
  "((?<!\.)\b" ++ hostname ++ "\b)(" ++ pathnameRegex ++ ")".

(** The first replacement of [replaceResponseText], of the proxy host. *)
Definition replaceProxyHost (txt proxyHostname : string)
  (pathnameRegex : option string) (originHostname : string)
  : completion string :=
  if truthy pathnameRegex then
    let pathnameRegex' := strip_caret (to_string pathnameRegex) in
    r <- new_RegExp (host_path_pattern proxyHostname pathnameRegex') ;;
    Normal (string_replace r txt (originHostname ++ "$2"))
  else
    rewriteText txt proxyHostname originHostname.

(** The other host of the GitHub pair. *)
Definition otherHost (proxyHostname : string) : string :=
  if String.eqb proxyHostname "api.github.com"
  then "github.com" else "api.github.com".

Definition replaceResponseText (originalResponse : Response)
  (proxyHostname : string) (pathnameRegex : option string)
  (originHostname : string) (baseHostname : option string)
  : completion string :=
  txt <- replaceProxyHost (body_text originalResponse) proxyHostname
           pathnameRegex originHostname ;;
  match baseHostname with
  | Some b =>
      if String.eqb b "github.com"
      then rewriteText txt (otherHost proxyHostname) originHostname
      else Normal txt
  | None => Normal txt
  end.

(** *** fetch *)

(** [v && f(v)] in a condition: false when [v] is absent or empty. *)
Definition configured (v : option string) (f : string -> completion bool)
  : completion bool :=
  match v with
  | Some s => if String.eqb s "" then Normal false else f s
  | None => Normal false
  end.

Definition negate (c : completion bool) : completion bool :=
  b <- c ;; Normal (negb b).

(** The [user-agent] filters dereference the header, the others pass it
    to [test] as it is. *)
Definition test_user_agent (src : string) (request : Request)
  : completion bool :=
  r <- new_RegExp src ;;
  ua <- lower_case_of (get (headers request) "user-agent") ;;
  Normal (regexp_test_method r ua).

Definition test_header (src : string) (request : Request) (name : string)
  : completion bool :=
  regexp_test src (to_string (get (headers request) name)).

(** The condition of the [if] of [fetch]: true when the request is
    refused. *)
Definition invalid (env : Env) (request : Request) : completion bool :=
  or_else (Normal (negb (truthy (PROXY_HOSTNAME env))))
  (or_else (configured (PATHNAME_REGEX env)
              (fun p => negate (regexp_test p (pathname (url request)))))
  (or_else (configured (UA_WHITELIST_REGEX env)
              (fun p => negate (test_user_agent p request)))
  (or_else (configured (UA_BLACKLIST_REGEX env)
              (fun p => test_user_agent p request))
  (or_else (configured (IP_WHITELIST_REGEX env)
              (fun p => negate (test_header p request "cf-connecting-ip")))
  (or_else (configured (IP_BLACKLIST_REGEX env)
              (fun p => test_header p request "cf-connecting-ip"))
  (or_else (configured (REGION_WHITELIST_REGEX env)
              (fun p => negate (test_header p request "cf-ipcountry")))
           (configured (REGION_BLACKLIST_REGEX env)
              (fun p => test_header p request "cf-ipcountry")))))))).

(** [contentType.includes("text/") || contentType.includes("application/json")]. *)
Definition rewritable (contentType : string) : bool :=
  includes contentType "text/" || includes contentType "application/json".

(** [newResponseHeaders.get("content-type") || ""]. *)
Definition content_type (h : Headers) : string :=
  match get h "content-type" with
  | Some v => v
  | None => ""
  end.

(** The end of [fetch], from the answer of the upstream to the response
    that is returned. *)
Definition respond (originalResponse : Response)
  (actualProxyHost originHostname : string) (env : Env)
  : completion Response :=
  newResponseHeaders <- setResponseHeaders originalResponse actualProxyHost
                          originHostname (DEBUG env) ;;
  let contentType := content_type newResponseHeaders in
  b <- (if rewritable contentType
        then t <- replaceResponseText originalResponse actualProxyHost
                    (PATHNAME_REGEX env) originHostname
                    (PROXY_HOSTNAME env) ;;
             Normal (Text t)
        else Normal (resp_body originalResponse)) ;;
  new_Response b (status originalResponse) newResponseHeaders.

Section Fetch.

(** The global [fetch]: the upstream. *)
Variable upstream : Request -> completion Response.

(** The page that [nginx()] returns, a constant text. *)
Variable nginx : string.

(** The response to a refused request: [Response.redirect(URL302, 302)] or
    the page.  The line [logError] writes to the console is not modelled. *)
Definition refusal (env : Env) : completion Response :=
  if truthy (URL302 env)
  then Response_redirect (to_string (URL302 env)) 302
  else Normal {| status := 200;
                 resp_headers := [("content-type", "text/html; charset=utf-8")];
                 resp_body := Text nginx |}.

(** The body of the [try] block. *)
Definition handle (request : Request) (env : Env) : completion Response :=
  let originHostname := host (url request) in
  bad <- invalid env request ;;
  if bad then refusal env
  else
    let actualProxyHost :=
      getGitHubProxyHost (to_string (PROXY_HOSTNAME env))
        (pathname (url request)) in
    let u := {| protocol := match PROXY_PROTOCOL env with
                            | Some p => p
                            | None => "https"
                            end;
                host := actualProxyHost;
                pathname := pathname (url request);
                search := search (url request) |} in
    newRequest <- createNewRequest request u actualProxyHost originHostname ;;
    originalResponse <- upstream newRequest ;;
    respond originalResponse actualProxyHost originHostname env.

(** [fetch]: an exception of the [try] block becomes the response 500. *)
Definition fetch (request : Request) (env : Env) : completion Response :=
  match handle request env with
  | Throw _ =>
      Normal {| status := 500;
                resp_headers := [("content-type", "text/plain;charset=UTF-8")];
                resp_body := Text "Internal Server Error" |}
  | c => c
  end.

End Fetch.

End WithPlatform.

(** The platform of this development: the patterns that module [RegExp]
    reads, matched as it matches them.  A pattern outside the fragment
    leaves the model, and so does a redirect: URLs are not parsed here. *)
Definition read_RegExp (src : string) : completion RegExp.regex :=
  match RegExp.parse src with
  | Some r => Normal r
  | None => OutOfModel
  end.

#[export] Instance fragment : Platform := {|
  regexp := RegExp.regex;
  new_RegExp := read_RegExp;
  regexp_test_method := RegExp.test;
  string_replace := RegExp.replace;
  Response_redirect := fun _ _ => OutOfModel
|}.

End Worker.

(** ** Vocabulary of the statements *)

Module Spec.

Import Worker.

Local Open Scope string_scope.


Section OnAnyPlatform.

Context {platform : Platform}.

(** The request is let through to the upstream. *)
Definition passes (env : Env) (request : Request) : Prop :=
  invalid env request = Normal false.




End OnAnyPlatform.



(** The request with one more header in front. *)
Definition with_header (request : Request) (name value : string) : Request :=
  {| url := url request; method := method request;
     headers := (name, value) :: headers request;
     body := body request; redirect := redirect request |}.

(** *** Hostnames as patterns *)

(** The characters of a hostname: letters, digits, [-], [.] and [_]. *)
Definition hostname_char (c : ascii) : bool :=
  is_digit c || is_upper c || is_lower c
  || Ascii.eqb c "-" || Ascii.eqb c "." || Ascii.eqb c "_".

Definition hostname_ok (h : string) : Prop :=
  forallb hostname_char (chars h) = true.

(** What a hostname character stands for inside a pattern: the dot is the
    wildcard, every other character is itself. *)
Definition host_atom (c : ascii) : RegExp.atom :=
  if Ascii.eqb c "." then RegExp.Dot else RegExp.Lit c.

Fixpoint host_seq (h : list ascii) (r : RegExp.regex) : RegExp.regex :=
  match h with
  | [] => r
  | c :: h' => RegExp.Seq (RegExp.Atom (host_atom c)) (host_seq h' r)
  end.

(** The body [(?<!\.)\bh\b] followed by [r]. *)
Definition guarded (h : list ascii) (r : RegExp.regex) : RegExp.regex :=
  RegExp.Seq (RegExp.NotBehind (RegExp.Lit "."))
    (RegExp.Seq RegExp.WordB (host_seq h (RegExp.Seq RegExp.WordB r))).

(** The pattern of [host_pattern h], read. *)
Definition host_regex (h : list ascii) : RegExp.regex :=
  guarded h RegExp.Empty.

(** The pattern of [host_path_pattern h p], read, for [p] read as [rp]. *)
Definition host_path_regex (h : list ascii) (rp : RegExp.regex)
  : RegExp.regex :=
  RegExp.Seq (RegExp.Group (guarded h RegExp.Empty))
    (RegExp.Seq (RegExp.Group rp) RegExp.Empty).

(** The characters of [h], as atoms, one after the other from [x]. *)
Fixpoint eat (h : list ascii) (x : RegExp.state) : option RegExp.state :=
  match h with
  | [] => Some x
  | c :: h' =>
      match RegExp.after x with
      | ch :: rest =>
          if RegExp.atom_matches (host_atom c) ch
          then eat h' (RegExp.State (ch :: RegExp.before x) rest)
          else None
      | [] => None
      end
  end.

Definition after_dot (x : RegExp.state) : bool :=
  match RegExp.before x with
  | ch :: _ => Ascii.eqb "." ch
  | [] => false
  end.

(** A match of the hostname pattern at [x]: not after a dot, at a word
    boundary, the atoms of [h], a word boundary again.  The result is the
    position after the match. *)
Definition host_match (h : list ascii) (x : RegExp.state)
  : option RegExp.state :=
  if negb (after_dot x) && RegExp.at_boundary x then
    match eat h x with
    | Some y => if RegExp.at_boundary y then Some y else None
    | None => None
    end
  else None.

(** A pattern text that does not start with a quantifier: it is empty or
    starts with a hostname character, a backslash or a right parenthesis. *)
Definition plain_start (s : list ascii) : Prop :=
  match s with
  | [] => True
  | c :: _ => hostname_char c = true \/ c = "\"%char \/ c = ")"%char
  end.

(** [y] is a position of the same subject as [x], not before it. *)
Definition reaches (x y : RegExp.state) : Prop :=
  exists w, RegExp.after x = (w ++ RegExp.after y)%list /\
            RegExp.before y = (rev w ++ RegExp.before x)%list.

(** A matcher with its continuation moves forward: when it succeeds, its
    continuation has succeeded at a position that the start reaches. *)
Definition forward
  (body : RegExp.state -> RegExp.captures -> RegExp.cont -> RegExp.result)
  : Prop :=
  forall x c k res, body x c k = Some res ->
    exists y c', reaches x y /\ k y c' = Some res.

(** Two continuations that end at the same positions, whatever the
    captures. *)
Definition same_end (k k' : RegExp.cont) : Prop :=
  forall z c1 c2, option_map fst (k z c1) = option_map fst (k' z c2).

(** The replacement of a subject from a position on, with the fuel
    [replace] starts with. *)
Definition replace_at (r : RegExp.regex) (t : list ascii) (x : RegExp.state)
  : list ascii :=
  RegExp.replace_from (S (length (RegExp.after x))) r t x.

(** A replacement template without [$]: it stands for itself. *)
Definition plain (t : list ascii) : Prop :=
  forallb (fun d => negb (Ascii.eqb d "$")) t = true.

(** A hostname without a dot. *)
Definition dot_free (h : list ascii) : Prop :=
  forallb (fun c => negb (Ascii.eqb c ".")) h = true.

(** A hostname of word characters alone: one label without [-]. *)
Definition word_only (h : string) : Prop :=
  h <> ""%string /\ forallb is_word_char (chars h) = true.

(** The substitution primitive on lists of characters, from a position
    on. *)
Definition rewrite_at (from to : list ascii) (x : RegExp.state) : list ascii :=
  replace_at (host_regex from) to x.

(** The first character of a list is a word character; is a dot. *)
Definition word_head (l : list ascii) : bool :=
  match l with
  | c :: _ => is_word_char c
  | [] => false
  end.

Definition dot_head (l : list ascii) : bool :=
  match l with
  | c :: _ => Ascii.eqb "." c
  | [] => false
  end.

(** Two left contexts that the hostname pattern cannot tell apart. *)
Definition same_context (bef bef' : list ascii) : Prop :=
  word_head bef = word_head bef' /\ dot_head bef = dot_head bef'.

(** Every literal occurrence of [a] in the subject is a whole word and
    does not follow a dot: the character before it is neither a word
    character nor a dot, the character after it is not a word character. *)
Fixpoint guarded_occurrences (a bef aft : list ascii) {struct aft} : bool :=
  (if starts_with a aft
   then negb (word_head bef) && negb (dot_head bef)
        && negb (word_head (skipn (length a) aft))
   else true)
  && match aft with
     | [] => true
     | c :: rest => guarded_occurrences a (c :: bef) rest
     end.

Definition only_guarded_occurrences (s a : string) : bool :=
  guarded_occurrences (chars a) [] (chars s).

(** Outbound, then inbound. *)
Definition round_trip (s a b : string) : completion string :=
  t <- rewriteText s a b ;; rewriteText t b a.

(** What may follow a pattern text that was read to its end: nothing, or
    a right parenthesis. *)
Definition closes (t : list ascii) : Prop :=
  match t with
  | [] => True
  | c :: _ => RegExp.classify c = RegExp.TRParen
  end.

(** *** The constrained substitution *)

(** A match of the path pattern [rp] that starts exactly at [y]: the
    position where it ends. *)
Definition path_match (rp : RegExp.regex) (y : RegExp.state)
  : option RegExp.state :=
  option_map fst (RegExp.match_at rp y).

(** One character of the subject is copied. *)
Definition copy_one (x : RegExp.state) (k : RegExp.state -> list ascii)
  : list ascii :=
  match RegExp.after x with
  | ch :: rest => ch :: k (RegExp.State (ch :: RegExp.before x) rest)
  | [] => []
  end.



(** *** Examples *)

(** An environment with the proxy hostname alone, and variants with one
    filter. *)
Definition env_of (proxy : string) : Env :=
  {| PROXY_HOSTNAME := Some proxy; PROXY_PROTOCOL := None;
     PATHNAME_REGEX := None;
     UA_WHITELIST_REGEX := None; UA_BLACKLIST_REGEX := None;
     URL302 := None;
     IP_WHITELIST_REGEX := None; IP_BLACKLIST_REGEX := None;
     REGION_WHITELIST_REGEX := None; REGION_BLACKLIST_REGEX := None;
     DEBUG := None |}.

Definition with_ua_whitelist (env : Env) (p : string) : Env :=
  {| PROXY_HOSTNAME := PROXY_HOSTNAME env;
     PROXY_PROTOCOL := PROXY_PROTOCOL env;
     PATHNAME_REGEX := PATHNAME_REGEX env;
     UA_WHITELIST_REGEX := Some p;
     UA_BLACKLIST_REGEX := UA_BLACKLIST_REGEX env;
     URL302 := URL302 env;
     IP_WHITELIST_REGEX := IP_WHITELIST_REGEX env;
     IP_BLACKLIST_REGEX := IP_BLACKLIST_REGEX env;
     REGION_WHITELIST_REGEX := REGION_WHITELIST_REGEX env;
     REGION_BLACKLIST_REGEX := REGION_BLACKLIST_REGEX env;
     DEBUG := DEBUG env |}.

Definition with_ip_whitelist (env : Env) (p : string) : Env :=
  {| PROXY_HOSTNAME := PROXY_HOSTNAME env;
     PROXY_PROTOCOL := PROXY_PROTOCOL env;
     PATHNAME_REGEX := PATHNAME_REGEX env;
     UA_WHITELIST_REGEX := UA_WHITELIST_REGEX env;
     UA_BLACKLIST_REGEX := UA_BLACKLIST_REGEX env;
     URL302 := URL302 env;
     IP_WHITELIST_REGEX := Some p;
     IP_BLACKLIST_REGEX := IP_BLACKLIST_REGEX env;
     REGION_WHITELIST_REGEX := REGION_WHITELIST_REGEX env;
     REGION_BLACKLIST_REGEX := REGION_BLACKLIST_REGEX env;
     DEBUG := DEBUG env |}.

Definition with_pathname_regex (env : Env) (p : string) : Env :=
  {| PROXY_HOSTNAME := PROXY_HOSTNAME env;
     PROXY_PROTOCOL := PROXY_PROTOCOL env;
     PATHNAME_REGEX := Some p;
     UA_WHITELIST_REGEX := UA_WHITELIST_REGEX env;
     UA_BLACKLIST_REGEX := UA_BLACKLIST_REGEX env;
     URL302 := URL302 env;
     IP_WHITELIST_REGEX := IP_WHITELIST_REGEX env;
     IP_BLACKLIST_REGEX := IP_BLACKLIST_REGEX env;
     REGION_WHITELIST_REGEX := REGION_WHITELIST_REGEX env;
     REGION_BLACKLIST_REGEX := REGION_BLACKLIST_REGEX env;
     DEBUG := DEBUG env |}.

(** A GET request for [path] on [origin] with the headers [h]. *)
Definition request_of (origin path : string) (h : Headers) : Request :=
  {| url := {| protocol := "https:"; host := origin; pathname := path;
               search := "" |};
     method := "GET"; headers := h; body := ""; redirect := "manual" |}.

(** An upstream response 200 with one header and a streamed body. *)
Definition response_of (name value body : string) : Response :=
  {| status := 200; resp_headers := [(name, value)];
     resp_body := Stream body |}.

(** A stand-in for the page of [nginx()]. *)
Definition fallback_page : string := "<h1>Welcome to nginx!</h1>".

(** The response 500 of the [catch] block of [fetch]. *)
Definition internal_server_error : Response :=
  {| status := 500;
     resp_headers := [("content-type", "text/plain;charset=UTF-8")];
     resp_body := Text "Internal Server Error" |}.

(** *** The rest of the worker *)

(** The host the request is sent to, and the URL it is sent with. *)
Definition actual_host (env : Env) (request : Request) : string :=
  getGitHubProxyHost (to_string (PROXY_HOSTNAME env))
    (pathname (url request)).

Definition upstream_url (env : Env) (request : Request) : URL :=
  {| protocol := match PROXY_PROTOCOL env with
                 | Some p => p
                 | None => "https"
                 end;
     host := actual_host env request;
     pathname := pathname (url request);
     search := search (url request) |}.

(** [chunk] is a piece of the hostname [h]. *)
Definition has_chunk (h chunk : string) : Prop :=
  exists a rest, h = a ++ chunk ++ rest.

(** The hostname starts and ends with a word character. *)
Definition word_ended (h : string) : Prop :=
  word_head (chars h) = true /\ word_head (rev (chars h)) = true.

(** No value of the headers includes [s]. *)
Definition no_value_includes (h : Headers) (s : string) : Prop :=
  forall k v, In (k, v) h -> includes v s = false.

Definition without_pathname_regex (env : Env) : Env :=
  {| PROXY_HOSTNAME := PROXY_HOSTNAME env;
     PROXY_PROTOCOL := PROXY_PROTOCOL env;
     PATHNAME_REGEX := None;
     UA_WHITELIST_REGEX := UA_WHITELIST_REGEX env;
     UA_BLACKLIST_REGEX := UA_BLACKLIST_REGEX env;
     URL302 := URL302 env;
     IP_WHITELIST_REGEX := IP_WHITELIST_REGEX env;
     IP_BLACKLIST_REGEX := IP_BLACKLIST_REGEX env;
     REGION_WHITELIST_REGEX := REGION_WHITELIST_REGEX env;
     REGION_BLACKLIST_REGEX := REGION_BLACKLIST_REGEX env;
     DEBUG := DEBUG env |}.





(** *** The constructor of responses *)

(** The status [s] is one of a response (200..599) and it allows the body
    [b]: a status that allows no body comes with none. *)
Definition carries (b : Body) (s : nat) : bool :=
  Nat.leb 200 s && Nat.leb s 599 && (is_null b || negb (null_body_status s)).

(** The status allows a text as the body. *)
Definition carries_text (s : nat) : bool := carries (Text "") s.

(** An upstream response with a status, one header and a body. *)
Definition response_at (s : nat) (name value : string) (b : Body)
  : Response :=
  {| status := s; resp_headers := [(name, value)]; resp_body := b |}.

(** *** Headers with one entry per name *)

Fixpoint distinct (l : list string) : bool :=
  match l with
  | [] => true
  | k :: l' => negb (existsb (String.eqb k) l') && distinct l'
  end.

Definition one_per_name (h : Headers) : bool := distinct (map fst h).

(** *** The round trip *)

(** The first label of a hostname: its characters up to the first that is
    not a word character. *)
Fixpoint head_label (h : list ascii) : list ascii :=
  match h with
  | c :: h' => if is_word_char c then c :: head_label h' else []
  | [] => []
  end.

Definition first_label (h : string) : string := text (head_label (chars h)).

(** Wherever the pattern of [a] matches in the subject, from a position
    on, the text there is [a] itself: no dot of [a] stands for another
    character. *)
Fixpoint literal_matches (a bef aft : list ascii) {struct aft} : bool :=
  (match host_match a (RegExp.State bef aft) with
   | Some _ => starts_with a aft
   | None => true
   end)
  && match aft with
     | [] => true
     | c :: rest => literal_matches a (c :: bef) rest
     end.

Definition only_literal_matches (s a : string) : bool :=
  literal_matches (chars a) [] (chars s).

(** *** The unconstrained substitution *)

(** The substitution in the words of the claim: from left to right,
    wherever the pattern of the hostname matches, the replacement is
    written in place of the text matched; every other character is
    copied. *)
Fixpoint substitute_from (fuel : nat) (h t : list ascii) (x : RegExp.state)
  {struct fuel} : list ascii :=
  match fuel with
  | 0 => RegExp.after x
  | S f =>
      match host_match h x with
      | Some y => (t ++ substitute_from f h t y)%list
      | None => copy_one x (substitute_from f h t)
      end
  end.

Definition substitute_all (txt from to : string) : string :=
  text (substitute_from (S (length (chars txt))) (chars from) (chars to)
          (RegExp.start (chars txt))).

(** An upstream response 200 with the headers [h]. *)
Definition response_with (h : Headers) (body : string) : Response :=
  {| status := 200; resp_headers := h; resp_body := Stream body |}.

End Spec.

(** * Properties *)

Import Spec.

Import Worker.

Local Open Scope string_scope.

(** ** Strings and lists of characters *)

Lemma text_chars (s : string) : text (chars s) = s.
Proof. apply string_of_list_ascii_of_string. Qed.

Lemma chars_text (l : list ascii) : chars (text l) = l.
Proof. apply list_ascii_of_string_of_list_ascii. Qed.

Lemma chars_append (a b : string) : chars (a ++ b) = (chars a ++ chars b)%list.
Proof.
  induction a as [|c a IH]; simpl; [reflexivity|].
  unfold chars in *. simpl. now rewrite IH.
Qed.

Lemma chars_inj (a b : string) : chars a = chars b -> a = b.
Proof.
  intros H. rewrite <- (text_chars a), <- (text_chars b). now rewrite H.
Qed.

Lemma text_app (a b : list ascii) : text (a ++ b)%list = text a ++ text b.
Proof.
  apply chars_inj. now rewrite chars_append, !chars_text.
Qed.

Lemma starts_with_iff (p l : list ascii) :
  starts_with p l = true <-> exists rest, l = (p ++ rest)%list.
Proof.
  revert l. induction p as [|a p IH]; intros l; simpl.
  - split; [intros _; now exists l | reflexivity].
  - destruct l as [|b l].
    + split; [discriminate | intros [rest H]; discriminate].
    + rewrite andb_true_iff, IH, Ascii.eqb_eq. split.
      * intros [-> [rest ->]]. now exists rest.
      * intros [rest H]. injection H as -> ->. split; [reflexivity | now exists rest].
Qed.

Lemma starts_with_app (p l : list ascii) : starts_with p (p ++ l) = true.
Proof. apply starts_with_iff. now exists l. Qed.

Lemma startsWith_iff (s p : string) :
  startsWith s p = true <-> exists rest, s = p ++ rest.
Proof.
  unfold startsWith. rewrite starts_with_iff. split.
  - intros [rest H]. exists (text rest). apply chars_inj.
    now rewrite chars_append, chars_text.
  - intros [rest ->]. exists (chars rest). apply chars_append.
Qed.

(** ** Host resolution *)

(** C5, as amended.  The path is an API path exactly when it is one of the
    listed prefixes followed by any text (a literal, case-sensitive prefix
    test).  [getGitHubProxyHost] returns ["api.github.com"] exactly when
    the base hostname is ["github.com"] and the path is an API path, or
    the base hostname is ["api.github.com"] itself; whenever the first
    case does not apply it returns the base hostname unchanged. *)
Theorem getGitHubProxyHost_resolves (baseHostname path : string) :
  (isGitHubAPIPath path = true <->
   exists prefix rest, In prefix apiPaths /\ path = prefix ++ rest) /\
  (getGitHubProxyHost baseHostname path = "api.github.com" <->
   (baseHostname = "github.com" /\ isGitHubAPIPath path = true) \/
   baseHostname = "api.github.com") /\
  (~ (baseHostname = "github.com" /\ isGitHubAPIPath path = true) ->
   getGitHubProxyHost baseHostname path = baseHostname).
Proof.
  split; [|split].
  - unfold isGitHubAPIPath. rewrite existsb_exists. split.
    + intros [p [Hin Hp]]. apply startsWith_iff in Hp as [rest ->].
      now exists p, rest.
    + intros [p [rest [Hin ->]]]. exists p. split; [assumption|].
      apply startsWith_iff. now exists rest.
  - unfold getGitHubProxyHost.
    destruct (String.eqb_spec baseHostname "github.com") as [-> | Hne];
      cbn [andb].
    + destruct (isGitHubAPIPath path); split.
      * intros _. now left.
      * reflexivity.
      * discriminate.
      * intros [[_ H] | H]; discriminate H.
    + split.
      * intros ->. now right.
      * intros [[H _] | H]; [contradiction | exact H].
  - intros Hn. unfold getGitHubProxyHost.
    destruct (String.eqb_spec baseHostname "github.com") as [-> | Hne];
      [|reflexivity].
    destruct (isGitHubAPIPath path) eqn:Hapi; [|reflexivity].
    exfalso. apply Hn. now split.
Qed.

Lemma getGitHubProxyHost_resolves_witness :
  getGitHubProxyHost "github.com" "/repos/rocq-prover/rocq" = "api.github.com".
Proof.
  exact (proj2 (proj1 (proj2 (getGitHubProxyHost_resolves
                                "github.com" "/repos/rocq-prover/rocq")))
           (or_introl (conj eq_refl eq_refl))).
Defined.

(** C5, the claim as stated fails in its "only if": the alias also comes
    back when it is the base hostname itself, for a path that is not an
    API path. *)
Lemma alias_as_base_hostname :
  getGitHubProxyHost "api.github.com" "/rocq-prover/rocq" = "api.github.com" /\
  "api.github.com" <> "github.com" /\
  isGitHubAPIPath "/rocq-prover/rocq" = false.
Proof. repeat split; (reflexivity || discriminate). Qed.

(** The prefixes are taken as they are written: another case is another
    path, and a prefix without a final slash is also the start of longer
    names. *)
Lemma api_prefixes_are_literal :
  isGitHubAPIPath "/Repos/rocq-prover/rocq" = false /\
  isGitHubAPIPath "/repos" = false /\
  isGitHubAPIPath "/username/project" = true /\
  getGitHubProxyHost "GitHub.com" "/repos/rocq-prover/rocq" = "GitHub.com".
Proof. repeat split; reflexivity. Qed.

(** ** Access control *)

Section AccessControl.

Context {platform : Platform}.










(** The same fault for every request without the header, whenever the
    evaluation reaches a user agent whitelist whose pattern is read. *)
Lemma missing_user_agent_faults
  (upstream : Request -> completion Response) (page : string)
  (proxy p : string) (r : regexp) (origin path : string) (h : Headers) :
  proxy <> "" -> p <> "" -> new_RegExp p = Normal r ->
  get h "user-agent" = None ->
  fetch upstream page (request_of origin path h)
    (with_ua_whitelist (env_of proxy) p)
  = Normal internal_server_error.
Proof.
  intros Hproxy Hp Hr Hua. unfold fetch, handle, invalid. cbn.
  destruct (String.eqb_spec proxy "") as [->|_]; [now elim Hproxy|].
  destruct (String.eqb_spec p "") as [->|_]; [now elim Hp|].
  cbn. unfold test_user_agent. rewrite Hr. cbn. rewrite Hua.
  reflexivity.
Qed.

Lemma get_with_header_other (request : Request) (name value other : string) :
  other <> name ->
  get (headers (with_header request name value)) other
  = get (headers request) other.
Proof.
  intros Hne. simpl. destruct (String.eqb_spec name other) as [->|_];
    [now elim Hne | reflexivity].
Qed.

Lemma test_header_missing (src : string) (request : Request) (name : string) :
  get (headers request) name = None ->
  test_header src request name = regexp_test src "null".
Proof. intros H. unfold test_header. now rewrite H. Qed.

Lemma test_header_with_header (src : string) (request : Request)
  (name value : string) :
  test_header src (with_header request name value) name
  = regexp_test src value.
Proof.
  unfold test_header. simpl. now rewrite String.eqb_refl.
Qed.

Lemma test_header_with_other (src : string) (request : Request)
  (name value other : string) :
  other <> name ->
  test_header src (with_header request name value) other
  = test_header src request other.
Proof.
  intros H. unfold test_header. now rewrite get_with_header_other.
Qed.

Lemma test_user_agent_with_other (src : string) (request : Request)
  (name value : string) :
  name <> "user-agent" ->
  test_user_agent src (with_header request name value)
  = test_user_agent src request.
Proof.
  intros H. unfold test_user_agent.
  rewrite get_with_header_other; [reflexivity | congruence].
Qed.

Lemma configured_ext (v : option string) (f g : string -> completion bool) :
  (forall p, f p = g p) -> configured v f = configured v g.
Proof.
  intros H. unfold configured. destruct v as [s|]; [|reflexivity].
  destruct (String.eqb s ""); [reflexivity | apply H].
Qed.

Lemma invalid_with_null (env : Env) (request : Request) (name : string) :
  name = "cf-connecting-ip" \/ name = "cf-ipcountry" ->
  get (headers request) name = None ->
  invalid env request = invalid env (with_header request name "null").
Proof.
  intros Hname Hget. unfold invalid. simpl pathname.
  assert (Hua : name <> "user-agent") by (destruct Hname; subst; discriminate).
  assert (Hh : forall p other,
             test_header p (with_header request name "null") other
             = test_header p request other).
  { intros p other. destruct (String.eqb_spec other name) as [->|Hne].
    - rewrite test_header_with_header. symmetry.
      now apply test_header_missing.
    - now apply test_header_with_other. }
  repeat (f_equal; try (apply configured_ext; intros p;
                        rewrite ?test_user_agent_with_other by assumption;
                        rewrite ?Hh; reflexivity)).
Qed.

(** C9.  A request that lacks [cf-connecting-ip] or [cf-ipcountry] is
    judged as the same request carrying the value ["null"] in that header:
    each filter on the header tests its pattern on the text ["null"], and
    when the address whitelist is the only filter the request is refused
    exactly when the pattern does not match ["null"], without a fault. *)
Theorem missing_ip_or_region_is_null (env : Env) (request : Request)
  (name : string) :
  name = "cf-connecting-ip" \/ name = "cf-ipcountry" ->
  get (headers request) name = None ->
  (forall p, test_header p request name = regexp_test p "null") /\
  invalid env request = invalid env (with_header request name "null") /\
  (forall proxy p, proxy <> "" -> p <> "" -> name = "cf-connecting-ip" ->
     invalid (with_ip_whitelist (env_of proxy) p) request
     = negate (regexp_test p "null")).
Proof.
  intros Hname Hget. split; [|split].
  - intros p. now apply test_header_missing.
  - now apply invalid_with_null.
  - intros proxy q Hproxy Hq ->. unfold invalid. simpl.
    destruct (String.eqb_spec proxy "") as [->|_]; [now elim Hproxy|].
    destruct (String.eqb_spec q "") as [->|_]; [now elim Hq|].
    simpl. rewrite test_header_missing by assumption.
    unfold or_else, negate, bind.
    destruct (regexp_test q "null") as [[|]| |]; reflexivity.
Qed.

End AccessControl.



(** C3.  A request without a [user-agent] header, under a configured user
    agent filter, is not evaluated with the empty string: the filter
    dereferences the missing header, [fetch] catches the TypeError and
    answers 500. *)
Theorem missing_user_agent_is_a_fault
  (upstream : Request -> completion Response) (page : string) :
  invalid (with_ua_whitelist (env_of "github.com") "curl")
    (request_of "gh.example.org" "/" []) = Throw TypeError /\
  fetch upstream page (request_of "gh.example.org" "/" [])
    (with_ua_whitelist (env_of "github.com") "curl")
  = Normal internal_server_error.
Proof. split; reflexivity. Qed.

Lemma missing_ip_or_region_is_null_witness :
  invalid (with_ip_whitelist (env_of "github.com") "^(null|10\.)")
    (request_of "gh.example.org" "/" [("user-agent", "curl/8.0")])
  = Normal false.
Proof.
  rewrite (proj2 (proj2 (missing_ip_or_region_is_null
                    (env_of "github.com")
                    (request_of "gh.example.org" "/"
                                [("user-agent", "curl/8.0")])
                    "cf-connecting-ip" (or_introl eq_refl) eq_refl))
             "github.com" "^(null|10\.)");
    [reflexivity | discriminate | discriminate | reflexivity].
Defined.

(** ** Reading the hostname patterns *)

Lemma parse_disj_S (f : nat) (s : list ascii) :
  RegExp.parse_disj (S f) s =
  match RegExp.parse_alt f s with
  | Some (a, s1) =>
      match s1 with
      | c :: s2 =>
          match RegExp.classify c with
          | RegExp.TBar =>
              match RegExp.parse_disj f s2 with
              | Some (d, s3) => Some (RegExp.Alt a d, s3)
              | None => None
              end
          | _ => Some (a, s1)
          end
      | [] => Some (a, s1)
      end
  | None => None
  end.
Proof. reflexivity. Qed.

Lemma parse_alt_S (f : nat) (s : list ascii) :
  RegExp.parse_alt (S f) s =
  match s with
  | [] => Some (RegExp.Empty, s)
  | c :: _ =>
      match RegExp.classify c with
      | RegExp.TBar | RegExp.TRParen => Some (RegExp.Empty, s)
      | _ =>
          match RegExp.parse_term f s with
          | Some (t, s1) =>
              match RegExp.parse_alt f s1 with
              | Some (r, s2) => Some (RegExp.Seq t r, s2)
              | None => None
              end
          | None => None
          end
      end
  end.
Proof. reflexivity. Qed.

Lemma classify_hostname_char (c : ascii) :
  hostname_char c = true ->
  RegExp.classify c = (if Ascii.eqb c "." then RegExp.TDot else RegExp.TLit).
Proof.
  destruct c as [[] [] [] [] [] [] [] []]; vm_compute;
    intros H; (reflexivity || discriminate H).
Qed.

Lemma quantify_plain (r : RegExp.regex) (s : list ascii) :
  plain_start s -> RegExp.quantify r s = Some (r, s).
Proof.
  destruct s as [|c s]; [reflexivity|]. simpl. intros [H | [-> | ->]].
  - unfold RegExp.quantify. rewrite (classify_hostname_char c H).
    now destruct (Ascii.eqb c ".").
  - reflexivity.
  - reflexivity.
Qed.

Lemma parse_term_host (f : nat) (c : ascii) (s : list ascii) :
  hostname_char c = true -> plain_start s ->
  RegExp.parse_term (S f) (c :: s) = Some (RegExp.Atom (host_atom c), s).
Proof.
  intros Hc Hs. simpl. rewrite (classify_hostname_char c Hc).
  unfold host_atom. destruct (Ascii.eqb_spec c ".") as [->|Hne].
  - now apply quantify_plain.
  - now apply quantify_plain.
Qed.

Lemma plain_start_app (h tail : list ascii) :
  forallb hostname_char h = true -> plain_start tail ->
  plain_start (h ++ tail).
Proof.
  destruct h as [|c h]; simpl; [trivial|].
  rewrite andb_true_iff. intros [Hc _] _. now left.
Qed.

Lemma parse_alt_host (h tail : list ascii) (f : nat) :
  forallb hostname_char h = true -> plain_start tail -> tail <> [] ->
  RegExp.parse_alt (length h + S f) (h ++ tail) =
  match RegExp.parse_alt (S f) tail with
  | Some (r, s2) => Some (host_seq h r, s2)
  | None => None
  end.
Proof.
  intros Hh Ht Hne. induction h as [|c h IH].
  - cbn [List.length List.app Nat.add].
    generalize (RegExp.parse_alt (S f) tail). now intros [[r s2]|].
  - simpl in Hh. apply andb_true_iff in Hh as [Hc Hh].
    cbn [List.length List.app Nat.add].
    rewrite parse_alt_S.
    assert (Hcl : RegExp.classify c = RegExp.TDot \/ RegExp.classify c = RegExp.TLit).
    { rewrite (classify_hostname_char c Hc). destruct (Ascii.eqb c "."); auto. }
    replace (length h + S f) with (S (length h + f)) by lia.
    rewrite (parse_term_host _ c (h ++ tail) Hc (plain_start_app h tail Hh Ht)).
    replace (S (length h + f)) with (length h + S f) by lia.
    rewrite (IH Hh).
    generalize (RegExp.parse_alt (S f) tail).
    destruct Hcl as [-> | ->]; now intros [[r s2]|].
Qed.

Lemma parse_term_not_after_dot (f : nat) (s : list ascii) :
  RegExp.parse_term (S f)
    ("(" :: "?" :: "<" :: "!" :: "\" :: "." :: ")" :: s)%char%list
  = Some (RegExp.NotBehind (RegExp.Lit "."), s).
Proof. reflexivity. Qed.

Lemma parse_term_word_boundary (f : nat) (s : list ascii) :
  RegExp.parse_term (S f) ("\" :: "b" :: s)%char%list = Some (RegExp.WordB, s).
Proof. reflexivity. Qed.

Lemma parse_alt_word_boundary (f : nat) (s : list ascii) :
  RegExp.parse_alt (S (S f)) ("\" :: "b" :: s)%char%list =
  match RegExp.parse_alt (S f) s with
  | Some (r, s2) => Some (RegExp.Seq RegExp.WordB r, s2)
  | None => None
  end.
Proof. rewrite parse_alt_S. now rewrite parse_term_word_boundary. Qed.

Lemma parse_alt_guarded (h tail : list ascii) (f : nat) :
  forallb hostname_char h = true ->
  RegExp.parse_alt (S (S (length h + S (S f))))
    ("(" :: "?" :: "<" :: "!" :: "\" :: "." :: ")" :: "\" :: "b"
       :: h ++ "\" :: "b" :: tail)%char%list =
  match RegExp.parse_alt (S f) tail with
  | Some (r, s2) => Some (guarded h r, s2)
  | None => None
  end.
Proof.
  intros Hh.
  rewrite parse_alt_S.
  cbv beta iota delta [RegExp.classify]. simpl Ascii.eqb. cbv iota.
  rewrite parse_term_not_after_dot.
  replace (length h + S (S f)) with (S (length h + S f)) by lia.
  rewrite parse_alt_word_boundary.
  replace (S (length h + S f)) with (length h + S (S f)) by lia.
  rewrite parse_alt_host; [| assumption | simpl; auto | discriminate].
  rewrite parse_alt_word_boundary.
  unfold guarded. generalize (RegExp.parse_alt (S f) tail).
  now intros [[r s2]|].
Qed.

Lemma chars_host_pattern (h : string) :
  chars (host_pattern h) =
  ("(" :: "?" :: "<" :: "!" :: "\" :: "." :: ")" :: "\" :: "b"
     :: chars h ++ "\" :: "b" :: [])%char%list.
Proof.
  unfold host_pattern. now rewrite !chars_append.
Qed.

Lemma parse_host_pattern (h : string) :
  hostname_ok h ->
  RegExp.parse (host_pattern h) = Some (host_regex (chars h)).
Proof.
  intros Hh. unfold RegExp.parse. rewrite chars_host_pattern.
  unfold RegExp.parse_fuel.
  match goal with |- context [RegExp.parse_disj ?n _] =>
    replace n with (S (S (S (length (chars h)
                                + S (S (2 * length (chars h) + 31))))))
  end.
  2:{ cbn [List.length]. rewrite length_app. cbn [List.length]. lia. }
  rewrite parse_disj_S, parse_alt_guarded by exact Hh.
  rewrite parse_alt_S. reflexivity.
Qed.

(** ** Matching the hostname patterns *)

Lemma m_host_seq (h : list ascii) (r : RegExp.regex) (g : nat)
  (x : RegExp.state) (c : RegExp.captures) (k : RegExp.cont) :
  RegExp.m (host_seq h r) g x c k =
  match eat h x with
  | Some y => RegExp.m r g y c k
  | None => None
  end.
Proof.
  revert x. induction h as [|a h IH]; intros x; [reflexivity|].
  cbn [host_seq RegExp.m eat RegExp.ngroups].
  destruct (RegExp.after x) as [|ch rest]; [reflexivity|].
  destruct (RegExp.atom_matches (host_atom a) ch); [|reflexivity].
  rewrite Nat.add_0_r. apply IH.
Qed.

Lemma m_guarded (h : list ascii) (r : RegExp.regex) (g : nat)
  (x : RegExp.state) (c : RegExp.captures) (k : RegExp.cont) :
  RegExp.m (guarded h r) g x c k =
  match host_match h x with
  | Some y => RegExp.m r g y c k
  | None => None
  end.
Proof.
  unfold guarded, host_match, after_dot.
  cbn [RegExp.m RegExp.ngroups]. rewrite !Nat.add_0_r.
  assert (Hk : (if RegExp.at_boundary x
                then match eat h x with
                     | Some y => if RegExp.at_boundary y
                                 then RegExp.m r g y c k else None
                     | None => None
                     end
                else None)
               = match (if RegExp.at_boundary x
                        then match eat h x with
                             | Some y => if RegExp.at_boundary y
                                         then Some y else None
                             | None => None
                             end
                        else None) with
                 | Some y => RegExp.m r g y c k
                 | None => None
                 end).
  { destruct (RegExp.at_boundary x); [|reflexivity].
    destruct (eat h x) as [y|]; [|reflexivity].
    now destruct (RegExp.at_boundary y). }
  destruct (RegExp.before x) as [|ch bef].
  - cbn [negb andb]. rewrite m_host_seq. cbn [RegExp.m RegExp.ngroups].
    rewrite <- Hk. destruct (RegExp.at_boundary x); [|reflexivity].
    destruct (eat h x) as [y|]; [|reflexivity]. now rewrite Nat.add_0_r.
  - cbn [RegExp.atom_matches].
    destruct (Ascii.eqb "." ch); cbn [negb andb]; [reflexivity|].
    rewrite m_host_seq. cbn [RegExp.m RegExp.ngroups].
    rewrite <- Hk. destruct (RegExp.at_boundary x); [|reflexivity].
    destruct (eat h x) as [y|]; [|reflexivity]. now rewrite Nat.add_0_r.
Qed.

Lemma match_at_host_regex (h : list ascii) (x : RegExp.state) :
  RegExp.match_at (host_regex h) x =
  match host_match h x with
  | Some y => Some (y, [])
  | None => None
  end.
Proof. unfold RegExp.match_at, host_regex. now rewrite m_guarded. Qed.

(** The positions of a match of [eat]: the text moves from [after] to
    [before] unchanged. *)
Lemma eat_spec (h : list ascii) (x y : RegExp.state) :
  eat h x = Some y ->
  exists w, length w = length h /\
            RegExp.after x = (w ++ RegExp.after y)%list /\
            RegExp.before y = (rev w ++ RegExp.before x)%list.
Proof.
  revert x. induction h as [|a h IH]; intros x; cbn [eat].
  - intros [= <-]. now exists [].
  - destruct x as [bef aft]. cbn [RegExp.after RegExp.before].
    destruct aft as [|ch rest]; [discriminate|].
    destruct (RegExp.atom_matches (host_atom a) ch); [|discriminate].
    intros H. apply IH in H as (w & Hlen & Haft & Hbef).
    cbn [RegExp.after RegExp.before] in *.
    exists (ch :: w). cbn [List.length rev]. repeat split.
    + now rewrite Hlen.
    + now rewrite Haft.
    + now rewrite Hbef, <- app_assoc.
Qed.


(** ** The matcher moves forward *)

Lemma reaches_refl (x : RegExp.state) : reaches x x.
Proof. now exists []. Qed.

Lemma reaches_trans (x y z : RegExp.state) :
  reaches x y -> reaches y z -> reaches x z.
Proof.
  intros (w1 & Ha1 & Hb1) (w2 & Ha2 & Hb2). exists (w1 ++ w2)%list. split.
  - now rewrite Ha1, Ha2, app_assoc.
  - now rewrite Hb2, Hb1, rev_app_distr, app_assoc.
Qed.

Lemma reaches_length (x y : RegExp.state) :
  reaches x y -> length (RegExp.after y) <= length (RegExp.after x).
Proof. intros (w & Ha & _). rewrite Ha, length_app. lia. Qed.

Lemma orelse_Some (a b : RegExp.result) (res : RegExp.state * RegExp.captures) :
  RegExp.orelse a b = Some res -> a = Some res \/ b = Some res.
Proof. destruct a; simpl; auto. Qed.

Lemma repeat_reaches body (k : RegExp.cont) (n : nat) :
  forward body ->
  forall x c res, RegExp.repeat body k n x c = Some res ->
    exists y c', reaches x y /\ k y c' = Some res.
Proof.
  intros Hbody. induction n as [|n IH]; intros x c res; cbn [RegExp.repeat].
  - intros H. exists x, c. split; [apply reaches_refl | exact H].
  - intros H. apply orelse_Some in H as [H | H].
    + apply Hbody in H as (y & c' & Hxy & H).
      destruct (RegExp.moved x y); [|discriminate].
      apply IH in H as (z & c2 & Hyz & H).
      exists z, c2. split; [eapply reaches_trans; eassumption | exact H].
    + exists x, c. split; [apply reaches_refl | exact H].
Qed.

Lemma m_reaches (r : RegExp.regex) :
  forall g, forward (RegExp.m r g).
Proof.
  induction r as [ | a | | | | | a | r1 IH1 r2 IH2 | r1 IH1 r2 IH2
                 | r1 IH1 | r1 IH1 | r1 IH1 | r1 IH1 ];
    intros g x c k res; cbn [RegExp.m].
  - intros H. exists x, c. split; [apply reaches_refl | exact H].
  - destruct x as [bef aft]. cbn [RegExp.after RegExp.before].
    destruct aft as [|ch rest]; [discriminate|].
    destruct (RegExp.atom_matches a ch); [|discriminate].
    intros H. exists (RegExp.State (ch :: bef) rest), c. split; [|exact H].
    now exists [ch].
  - destruct (RegExp.before x); [|discriminate].
    intros H. exists x, c. split; [apply reaches_refl | exact H].
  - destruct (RegExp.after x); [|discriminate].
    intros H. exists x, c. split; [apply reaches_refl | exact H].
  - destruct (RegExp.at_boundary x); [|discriminate].
    intros H. exists x, c. split; [apply reaches_refl | exact H].
  - destruct (RegExp.at_boundary x); [discriminate|].
    intros H. exists x, c. split; [apply reaches_refl | exact H].
  - intros H. exists x, c. split; [apply reaches_refl|].
    destruct (RegExp.before x) as [|ch bef]; [exact H|].
    destruct (RegExp.atom_matches a ch); [discriminate | exact H].
  - intros H. apply IH1 in H as (y & c' & Hxy & H).
    apply IH2 in H as (z & c2 & Hyz & H).
    exists z, c2. split; [eapply reaches_trans; eassumption | exact H].
  - intros H. apply orelse_Some in H as [H | H].
    + now apply IH1 in H.
    + now apply IH2 in H.
  - apply repeat_reaches. intros y c1 k1 res1 H. now apply IH1 in H.
  - intros H. apply IH1 in H as (y & c' & Hxy & H).
    apply repeat_reaches in H as (z & c2 & Hyz & H).
    + exists z, c2. split; [eapply reaches_trans; eassumption | exact H].
    + intros y1 c1 k1 res1 H1. now apply IH1 in H1.
  - intros H. apply orelse_Some in H as [H | H].
    + apply IH1 in H as (y & c' & Hxy & H).
      destruct (RegExp.moved x y); [|discriminate]. now exists y, c'.
    + exists x, c. split; [apply reaches_refl | exact H].
  - intros H. apply IH1 in H as (y & c' & Hxy & H).
    exists y, ((g, RegExp.between x y) :: c'). now split.
Qed.

Lemma match_at_reaches (r : RegExp.regex) (x y : RegExp.state)
  (c : RegExp.captures) :
  RegExp.match_at r x = Some (y, c) -> reaches x y.
Proof.
  unfold RegExp.match_at. intros H.
  apply m_reaches in H as (z & c' & Hxz & [= -> _]). exact Hxz.
Qed.

Lemma moved_length (x y : RegExp.state) :
  reaches x y -> RegExp.moved x y = true ->
  length (RegExp.after y) < length (RegExp.after x).
Proof.
  intros Hxy. apply reaches_length in Hxy. unfold RegExp.moved.
  rewrite negb_true_iff, Nat.eqb_neq. lia.
Qed.

(** ** Replacement does not depend on the fuel *)

Lemma replace_from_fuel (r : RegExp.regex) (t : list ascii) (f f' : nat) :
  forall x, length (RegExp.after x) < f -> length (RegExp.after x) < f' ->
            RegExp.replace_from f r t x = RegExp.replace_from f' r t x.
Proof.
  revert f'. induction f as [|f IH]; intros f' x Hf Hf'; [lia|].
  destruct f' as [|f']; [lia|]. cbn [RegExp.replace_from].
  destruct (RegExp.match_at r x) as [[y c]|] eqn:Hm.
  - f_equal. pose proof (match_at_reaches _ _ _ _ Hm) as Hxy.
    destruct (RegExp.moved x y) eqn:Hmv.
    + pose proof (moved_length _ _ Hxy Hmv). apply IH; lia.
    + apply reaches_length in Hxy.
      destruct (RegExp.after y) as [|ch rest] eqn:Hy; [reflexivity|].
      f_equal. cbn [List.length] in Hxy.
      apply IH; cbn [RegExp.after]; lia.
  - destruct x as [bef [|ch rest]];
      cbn [RegExp.after RegExp.before List.length] in *; [reflexivity|].
    f_equal. apply IH; cbn [RegExp.after]; lia.
Qed.

Lemma replace_at_eq (r : RegExp.regex) (t : list ascii) (x : RegExp.state) :
  replace_at r t x =
  match RegExp.match_at r x with
  | Some (y, c) =>
      (RegExp.substitution (RegExp.ngroups r) x y c t ++
       (if RegExp.moved x y then replace_at r t y
        else match RegExp.after y with
             | ch :: rest =>
                 ch :: replace_at r t (RegExp.State (ch :: RegExp.before y) rest)
             | [] => []
             end))%list
  | None =>
      match RegExp.after x with
      | ch :: rest =>
          ch :: replace_at r t (RegExp.State (ch :: RegExp.before x) rest)
      | [] => []
      end
  end.
Proof.
  unfold replace_at at 1. cbn [RegExp.replace_from].
  destruct (RegExp.match_at r x) as [[y c]|] eqn:Hm.
  - f_equal. pose proof (match_at_reaches _ _ _ _ Hm) as Hxy.
    destruct (RegExp.moved x y) eqn:Hmv.
    + pose proof (moved_length _ _ Hxy Hmv).
      apply replace_from_fuel; lia.
    + apply reaches_length in Hxy.
      destruct (RegExp.after y) as [|ch rest] eqn:Hy; [reflexivity|].
      f_equal. cbn [List.length] in Hxy.
      apply replace_from_fuel; cbn [RegExp.after]; lia.
  - destruct x as [bef [|ch rest]]; cbn [RegExp.after RegExp.before] in *;
      [reflexivity|].
    f_equal.
Qed.

Lemma replace_eq (r : RegExp.regex) (s t : string) :
  RegExp.replace r s t = text (replace_at r (chars t) (RegExp.start (chars s))).
Proof. reflexivity. Qed.

(** ** The substitution primitive *)

Lemma substitution_plain (ng : nat) (x y : RegExp.state)
  (c : RegExp.captures) (t : list ascii) :
  plain t -> RegExp.substitution ng x y c t = t.
Proof.
  unfold plain. induction t as [|d t IH]; [reflexivity|].
  cbn [forallb RegExp.substitution]. rewrite andb_true_iff. intros [Hd Ht].
  rewrite Hd. now rewrite IH.
Qed.

Lemma hostname_char_plain (c : ascii) :
  hostname_char c = true -> negb (Ascii.eqb c "$") = true.
Proof.
  destruct c as [[] [] [] [] [] [] [] []]; vm_compute;
    intros H; (reflexivity || discriminate H).
Qed.

Lemma hostname_chars_plain (l : list ascii) :
  forallb hostname_char l = true -> plain l.
Proof.
  unfold plain. induction l as [|c l IH]; [reflexivity|].
  cbn [forallb]. rewrite !andb_true_iff. intros [Hc Hl].
  split; [now apply hostname_char_plain | now apply IH].
Qed.

Lemma hostname_plain (h : string) : hostname_ok h -> plain (chars h).
Proof. apply hostname_chars_plain. Qed.

Lemma host_match_reaches (h : list ascii) (x y : RegExp.state) :
  host_match h x = Some y ->
  exists w, length w = length h /\
            RegExp.after x = (w ++ RegExp.after y)%list /\
            RegExp.before y = (rev w ++ RegExp.before x)%list.
Proof.
  unfold host_match.
  destruct (negb (after_dot x) && RegExp.at_boundary x); [|discriminate].
  destruct (eat h x) as [z|] eqn:He; [|discriminate].
  destruct (RegExp.at_boundary z); [|discriminate].
  intros [= <-]. now apply eat_spec.
Qed.

Lemma host_match_moved (h : list ascii) (x y : RegExp.state) :
  h <> [] -> host_match h x = Some y -> RegExp.moved x y = true.
Proof.
  intros Hne H. apply host_match_reaches in H as (w & Hlen & Ha & _).
  unfold RegExp.moved. rewrite Ha, length_app, negb_true_iff, Nat.eqb_neq.
  destruct h; [contradiction|]. cbn [List.length] in Hlen. lia.
Qed.

(** The primitive, one step: at a match of the hostname pattern the
    replacement is written and the scan goes on after the match; elsewhere
    one character is copied. *)
Lemma rewrite_at_eq (from to : list ascii) (x : RegExp.state) :
  from <> [] -> plain to ->
  rewrite_at from to x =
  match host_match from x with
  | Some y => (to ++ rewrite_at from to y)%list
  | None =>
      match RegExp.after x with
      | ch :: rest =>
          ch :: rewrite_at from to (RegExp.State (ch :: RegExp.before x) rest)
      | [] => []
      end
  end.
Proof.
  intros Hne Hto. unfold rewrite_at. rewrite replace_at_eq at 1.
  rewrite match_at_host_regex.
  destruct (host_match from x) as [y|] eqn:Hm; [|reflexivity].
  rewrite (host_match_moved _ _ _ Hne Hm).
  now rewrite substitution_plain.
Qed.

Lemma rewriteText_eq (txt from to : string) :
  hostname_ok from ->
  rewriteText txt from to =
  Normal (text (replace_at (host_regex (chars from)) (chars to)
                  (RegExp.start (chars txt)))).
Proof.
  intros Hfrom. unfold rewriteText.
  cbn [new_RegExp string_replace fragment]. unfold read_RegExp.
  now rewrite (parse_host_pattern from Hfrom).
Qed.

(** C1.  The hostname is put into the pattern as it is, so its dots are
    wildcards: with [from = "github.com"] the text ["githubXcom"], which
    does not contain the hostname, is rewritten.  The example of the
    specification comes out as the specification says; by
    [host_match_literal] the dots are the only characters of a hostname
    that are not matched literally. *)
Theorem rewrite_text_dot_is_wildcard :
  rewriteText "see githubXcom" "github.com" "x.example"
  = Normal "see x.example"%string /\
  includes "see githubXcom" "github.com" = false /\
  rewriteText "visit api.github.com and github.com" "github.com" "x.example"
  = Normal "visit api.github.com and x.example"%string.
Proof. repeat split; vm_compute; reflexivity. Qed.

(** ** Hostnames of word characters *)

Lemma word_char_not_dot (c : ascii) :
  is_word_char c = true -> Ascii.eqb c "." = false.
Proof.
  destruct c as [[] [] [] [] [] [] [] []]; vm_compute;
    intros H; (reflexivity || discriminate H).
Qed.

Lemma word_char_hostname (c : ascii) :
  is_word_char c = true -> hostname_char c = true.
Proof.
  destruct c as [[] [] [] [] [] [] [] []]; vm_compute;
    intros H; (reflexivity || discriminate H).
Qed.

Lemma word_chars_hostname (l : list ascii) :
  forallb is_word_char l = true -> forallb hostname_char l = true.
Proof.
  rewrite !forallb_forall. intros H c Hc. now apply word_char_hostname, H.
Qed.

Lemma word_char_dot_head (c : ascii) (l : list ascii) :
  is_word_char c = true -> dot_head (c :: l) = false.
Proof.
  intros H. cbn [dot_head]. rewrite Ascii.eqb_sym.
  now apply word_char_not_dot.
Qed.

Lemma word_head_first (h rest : list ascii) :
  forallb is_word_char h = true -> h <> [] -> word_head (h ++ rest) = true.
Proof.
  intros Hw Hne. destruct h as [|c l]; [contradiction|].
  simpl in Hw. now apply andb_true_iff in Hw as [Hc _].
Qed.

Lemma last_word (h bef : list ascii) :
  forallb is_word_char h = true -> h <> [] ->
  exists c l, (rev h ++ bef)%list = c :: l /\ is_word_char c = true.
Proof.
  intros Hw Hne. destruct h as [|c l] using rev_ind; [contradiction|].
  rewrite forallb_app in Hw. apply andb_true_iff in Hw as [_ Hc].
  simpl in Hc. rewrite andb_true_r in Hc.
  rewrite rev_app_distr. simpl. now exists c, (rev l ++ bef)%list.
Qed.

Lemma word_head_last (h bef : list ascii) :
  forallb is_word_char h = true -> h <> [] ->
  word_head (rev h ++ bef) = true.
Proof.
  intros Hw Hne. destruct (last_word h bef Hw Hne) as (c & l & -> & Hc).
  exact Hc.
Qed.

Lemma dot_head_last (h bef : list ascii) :
  forallb is_word_char h = true -> h <> [] ->
  dot_head (rev h ++ bef) = false.
Proof.
  intros Hw Hne. destruct (last_word h bef Hw Hne) as (c & l & -> & Hc).
  now apply word_char_dot_head.
Qed.

(** Without a dot the atoms of a hostname are its characters. *)
Lemma eat_literal (h : list ascii) :
  dot_free h ->
  forall bef aft y,
    eat h (RegExp.State bef aft) = Some y <->
    exists rest, aft = (h ++ rest)%list /\
                 y = RegExp.State (rev h ++ bef) rest.
Proof.
  unfold dot_free. induction h as [|c h IH]; intros Hw bef aft y.
  - cbn [eat]. split.
    + intros [= <-]. now exists aft.
    + intros (rest & -> & ->). reflexivity.
  - cbn [forallb] in Hw. apply andb_true_iff in Hw as [Hc Hw].
    apply negb_true_iff in Hc.
    cbn [eat RegExp.after RegExp.before]. unfold host_atom.
    rewrite Hc. cbn [RegExp.atom_matches].
    destruct aft as [|ch aft].
    + split; [discriminate | intros (rest & H & _); discriminate].
    + destruct (Ascii.eqb_spec c ch) as [<- | Hne].
      * rewrite (IH Hw). cbn [rev]. split.
        -- intros (rest & -> & ->). exists rest.
           now rewrite <- app_assoc.
        -- intros (rest & [= ->] & ->). exists rest.
           now rewrite <- app_assoc.
      * split; [discriminate|]. intros (rest & [= H _] & _). now elim Hne.
Qed.

Lemma word_chars_dot_free (h : list ascii) :
  forallb is_word_char h = true -> dot_free h.
Proof.
  unfold dot_free. rewrite !forallb_forall. intros H c Hc.
  apply negb_true_iff, word_char_not_dot. now apply H.
Qed.

Lemma eat_word (h : list ascii) :
  forallb is_word_char h = true ->
  forall bef aft y,
    eat h (RegExp.State bef aft) = Some y <->
    exists rest, aft = (h ++ rest)%list /\
                 y = RegExp.State (rev h ++ bef) rest.
Proof. intros Hw. now apply eat_literal, word_chars_dot_free. Qed.

(** The dots are all that the pattern does not take literally: a match of
    the pattern of a hostname without dots is an occurrence of the
    hostname. *)
Lemma host_match_literal (h : list ascii) (x y : RegExp.state) :
  dot_free h -> host_match h x = Some y ->
  starts_with h (RegExp.after x) = true.
Proof.
  intros Hd. unfold host_match.
  destruct (negb (after_dot x) && RegExp.at_boundary x); [|discriminate].
  destruct (eat h x) as [z|] eqn:He; [|discriminate]. intros _.
  destruct x as [bef aft]. apply (eat_literal h Hd) in He as (rest & -> & _).
  apply starts_with_app.
Qed.

Lemma host_match_word_intro (h bef rest : list ascii) :
  forallb is_word_char h = true -> h <> [] ->
  word_head bef = false -> dot_head bef = false -> word_head rest = false ->
  host_match h (RegExp.State bef (h ++ rest))
  = Some (RegExp.State (rev h ++ bef) rest).
Proof.
  intros Hw Hne Hb Hd Hr. unfold host_match, after_dot, RegExp.at_boundary.
  change (RegExp.word_before (RegExp.State bef (h ++ rest)))
    with (word_head bef).
  change (RegExp.word_after (RegExp.State bef (h ++ rest)))
    with (word_head (h ++ rest)).
  change (match RegExp.before (RegExp.State bef (h ++ rest)) with
          | [] => false | ch :: _ => Ascii.eqb "." ch end)
    with (dot_head bef).
  rewrite Hb, Hd, (word_head_first h rest Hw Hne). cbn [negb andb xorb].
  destruct (eat h (RegExp.State bef (h ++ rest))) as [y|] eqn:He.
  - apply (eat_word h Hw) in He as (rest' & Happ & ->).
    apply app_inv_head in Happ as <-.
    change (RegExp.word_before (RegExp.State (rev h ++ bef) rest))
      with (word_head (rev h ++ bef)).
    change (RegExp.word_after (RegExp.State (rev h ++ bef) rest))
      with (word_head rest).
    now rewrite (word_head_last h bef Hw Hne), Hr.
  - assert (H : eat h (RegExp.State bef (h ++ rest))
                = Some (RegExp.State (rev h ++ bef) rest))
      by (apply (eat_word h Hw); now exists rest).
    congruence.
Qed.

Lemma host_match_word_elim (h bef aft : list ascii) (y : RegExp.state) :
  forallb is_word_char h = true -> h <> [] ->
  host_match h (RegExp.State bef aft) = Some y ->
  word_head bef = false /\ dot_head bef = false /\
  exists rest, aft = (h ++ rest)%list /\ word_head rest = false /\
               y = RegExp.State (rev h ++ bef) rest.
Proof.
  intros Hw Hne. unfold host_match, after_dot, RegExp.at_boundary.
  change (RegExp.word_before (RegExp.State bef aft)) with (word_head bef).
  change (RegExp.word_after (RegExp.State bef aft)) with (word_head aft).
  change (match RegExp.before (RegExp.State bef aft) with
          | [] => false | ch :: _ => Ascii.eqb "." ch end)
    with (dot_head bef).
  destruct (dot_head bef); [discriminate|]. cbn [negb andb].
  destruct (eat h (RegExp.State bef aft)) as [z|] eqn:He.
  2:{ now destruct (xorb (word_head bef) (word_head aft)). }
  apply (eat_word h Hw) in He as (rest & -> & ->).
  rewrite (word_head_first h rest Hw Hne).
  change (RegExp.word_before (RegExp.State (rev h ++ bef) rest))
    with (word_head (rev h ++ bef)).
  change (RegExp.word_after (RegExp.State (rev h ++ bef) rest))
    with (word_head rest).
  rewrite (word_head_last h bef Hw Hne).
  destruct (word_head bef); cbn [xorb negb]; [discriminate|].
  destruct (word_head rest) eqn:Hr; [discriminate|].
  intros [= <-]. repeat split. now exists rest.
Qed.

(** No match starts after a word character, and none at a character that
    is not a word character. *)
Lemma host_match_after_word (h bef aft : list ascii) :
  forallb is_word_char h = true -> h <> [] ->
  word_head bef = true -> host_match h (RegExp.State bef aft) = None.
Proof.
  intros Hw Hne Hb.
  destruct (host_match h (RegExp.State bef aft)) as [y|] eqn:Hm;
    [|reflexivity].
  apply host_match_word_elim in Hm as (Hb' & _); [congruence | exact Hw | exact Hne].
Qed.

Lemma host_match_at_nonword (h bef aft : list ascii) :
  forallb is_word_char h = true -> h <> [] ->
  word_head aft = false -> host_match h (RegExp.State bef aft) = None.
Proof.
  intros Hw Hne Ha.
  destruct (host_match h (RegExp.State bef aft)) as [y|] eqn:Hm;
    [|reflexivity].
  apply host_match_word_elim in Hm as (_ & _ & rest & -> & _);
    [| exact Hw | exact Hne].
  now rewrite (word_head_first h rest Hw Hne) in Ha.
Qed.

(** The primitive copies a run of word characters that it enters after a
    word character, and a character that is not a word character. *)
Lemma rewrite_at_nonword (h t bef aft : list ascii) :
  forallb is_word_char h = true -> h <> [] -> plain t ->
  word_head aft = false ->
  rewrite_at h t (RegExp.State bef aft) =
  match aft with
  | ch :: rest => ch :: rewrite_at h t (RegExp.State (ch :: bef) rest)
  | [] => []
  end.
Proof.
  intros Hw Hne Ht Ha. rewrite rewrite_at_eq by assumption.
  now rewrite (host_match_at_nonword h bef aft Hw Hne Ha).
Qed.

Lemma rewrite_at_nonword_head (h t bef aft : list ascii) :
  forallb is_word_char h = true -> h <> [] -> plain t ->
  word_head aft = false ->
  word_head (rewrite_at h t (RegExp.State bef aft)) = false.
Proof.
  intros Hw Hne Ht Ha. rewrite rewrite_at_nonword by assumption.
  now destruct aft.
Qed.

Lemma rewrite_at_word_run (h t w : list ascii) :
  forallb is_word_char h = true -> h <> [] -> plain t ->
  forallb is_word_char w = true ->
  forall bef l, word_head bef = true ->
    rewrite_at h t (RegExp.State bef (w ++ l))
    = (w ++ rewrite_at h t (RegExp.State (rev w ++ bef) l))%list.
Proof.
  intros Hw Hne Ht. induction w as [|c w IH]; intros Hrun bef l Hb.
  - reflexivity.
  - cbn [forallb] in Hrun. apply andb_true_iff in Hrun as [Hc Hrun].
    rewrite rewrite_at_eq by assumption.
    rewrite (host_match_after_word h bef _ Hw Hne Hb).
    cbn [List.app RegExp.after RegExp.before]. f_equal.
    rewrite (IH Hrun (c :: bef) l Hc). cbn [rev]. now rewrite <- app_assoc.
Qed.

(** A list splits in one way into a run of word characters and a rest
    that does not start with one. *)
Lemma word_run_exists (l : list ascii) :
  exists w l2, l = (w ++ l2)%list /\ forallb is_word_char w = true /\
               word_head l2 = false.
Proof.
  induction l as [|c l (w & l2 & -> & Hw & Hl2)].
  - now exists [], [].
  - destruct (is_word_char c) eqn:Hc.
    + exists (c :: w), l2. cbn [forallb]. now rewrite Hc.
    + exists [], (c :: w ++ l2)%list. now repeat split.
Qed.

Lemma word_run_unique (w1 w2 l1 l2 : list ascii) :
  (w1 ++ l1)%list = (w2 ++ l2)%list ->
  forallb is_word_char w1 = true -> forallb is_word_char w2 = true ->
  word_head l1 = false -> word_head l2 = false ->
  w1 = w2.
Proof.
  revert w2. induction w1 as [|c w1 IH]; intros [|d w2] Heq Hw1 Hw2 H1 H2.
  - reflexivity.
  - cbn in Heq. subst l1. cbn in Hw2, H1.
    apply andb_true_iff in Hw2 as [Hd _]. congruence.
  - cbn in Heq. subst l2. cbn in Hw1, H2.
    apply andb_true_iff in Hw1 as [Hc _]. congruence.
  - cbn in Heq. injection Heq as -> Heq. cbn in Hw1, Hw2.
    apply andb_true_iff in Hw1 as [_ Hw1].
    apply andb_true_iff in Hw2 as [_ Hw2].
    f_equal. now apply (IH w2).
Qed.

Lemma contains_starts_with (p l : list ascii) :
  contains p l = false -> starts_with p l = false.
Proof.
  destruct l; cbn [contains]; rewrite orb_false_iff; now intros [H _].
Qed.

Lemma contains_tail (p : list ascii) (c : ascii) (l : list ascii) :
  contains p (c :: l) = false -> contains p l = false.
Proof. cbn [contains]. rewrite orb_false_iff. now intros [_ H]. Qed.

Lemma contains_suffix (p w l : list ascii) :
  contains p (w ++ l) = false -> contains p l = false.
Proof.
  induction w as [|c w IH]; [trivial|]. intros H. apply IH.
  now apply contains_tail in H.
Qed.

(** The round trip on lists of characters. *)
Lemma round_trip_at (a b : list ascii) :
  forallb is_word_char a = true -> a <> [] ->
  forallb is_word_char b = true -> b <> [] ->
  forall n aft bef bef',
    length aft <= n -> same_context bef bef' ->
    contains b aft = false ->
    rewrite_at b a (RegExp.State bef' (rewrite_at a b (RegExp.State bef aft)))
    = aft.
Proof.
  intros Ha Hane Hb Hbne.
  assert (Pa : plain a) by now apply hostname_chars_plain, word_chars_hostname.
  assert (Pb : plain b) by now apply hostname_chars_plain, word_chars_hostname.
  induction n as [|n IH]; intros aft bef bef' Hlen [Hsw Hsd] Hno.
  - destruct aft; [|cbn in Hlen; lia].
    rewrite (rewrite_at_nonword a b bef []) by (assumption || reflexivity).
    now rewrite (rewrite_at_nonword b a bef' []) by (assumption || reflexivity).
  - rewrite (rewrite_at_eq a b) by assumption.
    destruct (host_match a (RegExp.State bef aft)) as [y|] eqn:Hm.
    + apply host_match_word_elim in Hm
        as (Hbw & Hbd & rest & -> & Hrest & ->); [| assumption | assumption].
      pose proof (rewrite_at_nonword_head a b (rev a ++ bef) rest
                    Ha Hane Pb Hrest) as Hx.
      rewrite (rewrite_at_eq b a) by assumption.
      rewrite (host_match_word_intro b bef' _ Hb Hbne); try congruence.
      f_equal. apply IH.
      * rewrite length_app in Hlen. destruct a; [contradiction|].
        cbn [List.length] in Hlen. lia.
      * split.
        -- now rewrite !word_head_last.
        -- now rewrite !dot_head_last.
      * now apply contains_suffix in Hno.
    + cbn [RegExp.after RegExp.before].
      destruct aft as [|ch rest].
      * now rewrite (rewrite_at_nonword b a bef' [])
          by (assumption || reflexivity).
      * rewrite (rewrite_at_eq b a) by assumption.
        destruct (host_match b (RegExp.State bef'
                    (ch :: rewrite_at a b (RegExp.State (ch :: bef) rest))))
          as [y|] eqn:Hmb.
        -- exfalso.
           apply host_match_word_elim in Hmb
             as (_ & _ & rest' & Heq & Hrest' & _); [| assumption | assumption].
           assert (Hch : is_word_char ch = true).
           { change (word_head (ch :: rewrite_at a b
                                  (RegExp.State (ch :: bef) rest)) = true).
             rewrite Heq. now apply word_head_first. }
           destruct (word_run_exists rest) as (w & l2 & -> & Hw & Hl2).
           rewrite (rewrite_at_word_run a b w Ha Hane Pb Hw (ch :: bef) l2 Hch)
             in Heq.
           pose proof (rewrite_at_nonword_head a b (rev w ++ ch :: bef) l2
                         Ha Hane Pb Hl2) as Hx.
           change (ch :: w ++ rewrite_at a b
                     (RegExp.State (rev w ++ ch :: bef) l2))%list
             with ((ch :: w) ++ rewrite_at a b
                     (RegExp.State (rev w ++ ch :: bef) l2))%list in Heq.
           apply word_run_unique in Heq; try assumption.
           2:{ cbn [forallb]. now rewrite Hch. }
           apply contains_starts_with in Hno.
           change (ch :: w ++ l2)%list with ((ch :: w) ++ l2)%list in Hno.
           rewrite Heq in Hno. now rewrite starts_with_app in Hno.
        -- cbn [RegExp.after RegExp.before]. f_equal. apply IH.
           ++ cbn [List.length] in Hlen. lia.
           ++ now split.
           ++ now apply contains_tail in Hno.
Qed.

Lemma chars_nonempty (h : string) : h <> ""%string -> chars h <> [].
Proof.
  intros Hne H. apply Hne. apply chars_inj. now rewrite H.
Qed.

Lemma word_only_hostname (h : string) : word_only h -> hostname_ok h.
Proof. intros [_ H]. now apply word_chars_hostname. Qed.


(** ** The response *)

Section ResponseOnAnyPlatform.

Context {platform : Platform}.

Lemma bind_Normal {A B : Type} (c : completion A) (f : A -> completion B)
  (b : B) :
  bind c f = Normal b -> exists a, c = Normal a /\ f a = Normal b.
Proof. destruct c as [a| |]; simpl; try discriminate. now exists a. Qed.

Lemma rewriteHeaders_get (h h' : Headers) (from to name : string) :
  rewriteHeaders h from to = Normal h' ->
  match get h name with
  | None => get h' name = None
  | Some v =>
      if includes v from
      then exists v', rewriteText v from to = Normal v' /\
                      get h' name = Some v'
      else get h' name = Some v
  end.
Proof.
  revert h'. induction h as [|[k v] h IH]; intros h'; cbn [rewriteHeaders].
  - intros [= <-]. reflexivity.
  - intros H. apply bind_Normal in H as (v' & Hv & H).
    apply bind_Normal in H as (rest & Hrest & [= <-]).
    specialize (IH rest Hrest). cbn [get].
    destruct (String.eqb k name); [|exact IH].
    destruct (includes v from).
    + now exists v'.
    + now injection Hv as <-.
Qed.

Lemma get_delete_other (h : Headers) (name other : string) :
  other <> name -> get (delete h name) other = get h other.
Proof.
  intros Hne. induction h as [|[k v] h IH]; [reflexivity|].
  cbn [delete filter fst get]. fold (delete h name).
  destruct (String.eqb_spec k name) as [-> | Hk]; cbn [negb get].
  - destruct (String.eqb_spec name other) as [<- | _]; [now elim Hne | exact IH].
  - now rewrite IH.
Qed.

Lemma setResponseHeaders_get (r : Response) (proxy origin : string)
  (debug : option string) (hs : Headers) (name : string) :
  name <> "content-security-policy" ->
  setResponseHeaders r proxy origin debug = Normal hs ->
  match get (resp_headers r) name with
  | None => get hs name = None
  | Some v =>
      if includes v proxy
      then exists v', rewriteText v proxy origin = Normal v' /\
                      get hs name = Some v'
      else get hs name = Some v
  end.
Proof.
  intros Hname H. unfold setResponseHeaders in H.
  apply bind_Normal in H as (h & Hh & [= <-]).
  pose proof (rewriteHeaders_get _ _ _ _ name Hh) as Hg.
  destruct (truthy debug); [|exact Hg].
  now rewrite get_delete_other.
Qed.

(** The content type the gate reads is the one of the upstream when the
    header is absent or its value does not include the proxy hostname. *)
Lemma content_type_kept (r : Response) (proxy origin : string)
  (debug : option string) (hs : Headers) :
  setResponseHeaders r proxy origin debug = Normal hs ->
  get (resp_headers r) "content-type" = None \/
  includes (content_type (resp_headers r)) proxy = false ->
  content_type hs = content_type (resp_headers r).
Proof.
  intros H Hc.
  pose proof (setResponseHeaders_get r proxy origin debug hs "content-type"
                ltac:(discriminate) H) as Hg.
  unfold content_type in *.
  destruct (get (resp_headers r) "content-type") as [v|].
  - destruct Hc as [Hc | Hc]; [discriminate|]. rewrite Hc in Hg.
    now rewrite Hg.
  - now rewrite Hg.
Qed.

Lemma new_Response_carries (b : Body) (s : nat) (h : Headers) :
  carries b s = true ->
  new_Response b s h
  = Normal {| status := s; resp_headers := h; resp_body := b |}.
Proof.
  unfold carries, new_Response.
  destruct (Nat.leb 200 s && Nat.leb s 599), (is_null b),
    (null_body_status s); cbn; intros H; (reflexivity || discriminate H).
Qed.

Lemma new_Response_refuses (b : Body) (s : nat) (h : Headers) :
  carries b s = false -> forall resp, new_Response b s h <> Normal resp.
Proof.
  unfold carries, new_Response.
  destruct (Nat.leb 200 s && Nat.leb s 599), (is_null b),
    (null_body_status s); cbn; intros H resp; (discriminate || discriminate H).
Qed.

Lemma respond_rewritten (r : Response) (proxy origin : string) (env : Env)
  (hs : Headers) :
  setResponseHeaders r proxy origin (DEBUG env) = Normal hs ->
  rewritable (content_type hs) = true ->
  respond r proxy origin env =
  (t <- replaceResponseText r proxy (PATHNAME_REGEX env) origin
          (PROXY_HOSTNAME env) ;;
   new_Response (Text t) (status r) hs).
Proof.
  intros Hs Hc. unfold respond. rewrite Hs. cbn [bind]. rewrite Hc.
  now destruct (replaceResponseText r proxy (PATHNAME_REGEX env) origin
                  (PROXY_HOSTNAME env)).
Qed.

Lemma respond_opaque (r : Response) (proxy origin : string) (env : Env)
  (hs : Headers) :
  setResponseHeaders r proxy origin (DEBUG env) = Normal hs ->
  rewritable (content_type hs) = false ->
  respond r proxy origin env = new_Response (resp_body r) (status r) hs.
Proof.
  intros Hs Hc. unfold respond. rewrite Hs. cbn [bind]. now rewrite Hc.
Qed.

(** A request that is let through is sent on, and the answer of the
    upstream becomes the response. *)
Lemma handle_forwards (upstream : Request -> completion Response)
  (page : string) (request : Request) (env : Env) :
  passes env request ->
  handle upstream page request env =
  (let actual := getGitHubProxyHost (to_string (PROXY_HOSTNAME env))
                   (pathname (url request)) in
   newRequest <- createNewRequest request
                   {| protocol := match PROXY_PROTOCOL env with
                                  | Some p => p
                                  | None => "https"
                                  end;
                      host := actual;
                      pathname := pathname (url request);
                      search := search (url request) |}
                   actual (host (url request)) ;;
   originalResponse <- upstream newRequest ;;
   respond originalResponse actual (host (url request)) env).
Proof. unfold passes, handle. now intros ->. Qed.

(** C4, as amended.  The gate reads the content type of the rewritten
    response headers.  When that value contains ["text/"] or
    ["application/json"] and the status of the upstream allows a text as
    the body, the body is the rewritten text; when it contains neither and
    the status allows the body of the upstream, the body is that body,
    unchanged.  The value is the one the upstream sent whenever that one
    does not include the proxy hostname.  With a status that does not
    allow the body no response is built from the answer. *)
Theorem content_type_gate (r : Response) (proxy origin : string) (env : Env)
  (hs : Headers) :
  setResponseHeaders r proxy origin (DEBUG env) = Normal hs ->
  (rewritable (content_type hs) = true ->
   carries_text (status r) = true ->
   respond r proxy origin env =
   (t <- replaceResponseText r proxy (PATHNAME_REGEX env) origin
           (PROXY_HOSTNAME env) ;;
    Normal {| status := status r; resp_headers := hs;
              resp_body := Text t |})) /\
  (rewritable (content_type hs) = false ->
   carries (resp_body r) (status r) = true ->
   respond r proxy origin env =
   Normal {| status := status r; resp_headers := hs;
             resp_body := resp_body r |}) /\
  (includes (content_type (resp_headers r)) proxy = false ->
   content_type hs = content_type (resp_headers r)) /\
  (carries (if rewritable (content_type hs) then Text "" else resp_body r)
     (status r) = false ->
   forall resp, respond r proxy origin env <> Normal resp).
Proof.
  intros Hs. split; [|split; [|split]].
  - intros Hc Hst. rewrite (respond_rewritten _ _ _ _ _ Hs Hc).
    destruct (replaceResponseText r proxy (PATHNAME_REGEX env) origin
                (PROXY_HOSTNAME env)) as [t| |]; cbn [bind];
      [|reflexivity|reflexivity].
    now apply new_Response_carries.
  - intros Hc Hst. rewrite (respond_opaque _ _ _ _ _ Hs Hc).
    now apply new_Response_carries.
  - intros Hc. eapply content_type_kept; [exact Hs | now right].
  - destruct (rewritable (content_type hs)) eqn:Hc; intros Hst resp.
    + rewrite (respond_rewritten _ _ _ _ _ Hs Hc).
      destruct (replaceResponseText r proxy (PATHNAME_REGEX env) origin
                  (PROXY_HOSTNAME env)) as [t| |]; cbn [bind];
        [|discriminate|discriminate].
      now apply new_Response_refuses.
    + rewrite (respond_opaque _ _ _ _ _ Hs Hc).
      now apply new_Response_refuses.
Qed.

(** C10, as amended.  A response without a content type header is passed
    through with the body of the upstream, and so is every response whose
    content type, as it stands in the rewritten headers, contains neither
    ["text/"] nor ["application/json"]; that value is the one of the
    upstream when the upstream value does not include the proxy
    hostname.  The status of the upstream is one that allows its body. *)
Theorem no_textual_content_type_is_opaque (r : Response)
  (proxy origin : string) (env : Env) (hs : Headers) :
  setResponseHeaders r proxy origin (DEBUG env) = Normal hs ->
  carries (resp_body r) (status r) = true ->
  let opaque := Normal {| status := status r; resp_headers := hs;
                          resp_body := resp_body r |} in
  (get (resp_headers r) "content-type" = None ->
   respond r proxy origin env = opaque) /\
  (rewritable (content_type hs) = false ->
   respond r proxy origin env = opaque) /\
  (includes (content_type (resp_headers r)) proxy = false ->
   rewritable (content_type (resp_headers r)) = false ->
   respond r proxy origin env = opaque).
Proof.
  intros Hs Hst opaque.
  assert (Hop : rewritable (content_type hs) = false ->
                respond r proxy origin env = opaque).
  { intros Hc. rewrite (respond_opaque _ _ _ _ _ Hs Hc).
    now apply new_Response_carries. }
  split; [|split].
  - intros Hnone. apply Hop.
    rewrite (content_type_kept _ _ _ _ _ Hs (or_introl Hnone)).
    unfold content_type. now rewrite Hnone.
  - exact Hop.
  - intros Hinc Hc. apply Hop.
    now rewrite (content_type_kept _ _ _ _ _ Hs (or_intror Hinc)).
Qed.

End ResponseOnAnyPlatform.

Lemma content_type_gate_witness :
  respond (response_of "content-type" "application/json; charset=utf-8"
             "see https://github.com/a and https://api.github.com/b")
    "github.com" "gh.example.org" (env_of "github.com")
  = Normal {| status := 200;
              resp_headers :=
                [("content-type", "application/json; charset=utf-8")];
              resp_body :=
                Text "see https://gh.example.org/a and https://gh.example.org/b" |}.
Proof.
  rewrite (proj1 (content_type_gate (platform := fragment)
                    (response_of "content-type"
                       "application/json; charset=utf-8"
                       "see https://github.com/a and https://api.github.com/b")
                    "github.com" "gh.example.org" (env_of "github.com")
                    [("content-type", "application/json; charset=utf-8")]
                    ltac:(vm_compute; reflexivity))
             ltac:(vm_compute; reflexivity) eq_refl).
  vm_compute. reflexivity.
Defined.


(** C4, the claim as stated fails: the upstream sends [text/html], the
    proxy hostname is ["text"], the header becomes ["my.proxy/html"], and
    the body is passed through as it is. *)
Lemma content_type_gate_reads_rewritten_headers :
  rewritable
    (content_type (resp_headers (response_of "content-type" "text/html"
                                   "<p>text</p>"))) = true /\
  fetch (fun _ => Normal (response_of "content-type" "text/html"
                            "<p>text</p>"))
    fallback_page (request_of "my.proxy" "/" []) (env_of "text")
  = Normal {| status := 200;
              resp_headers := [("content-type", "my.proxy/html")];
              resp_body := Stream "<p>text</p>" |}.
Proof. split; vm_compute; reflexivity. Qed.

(** A text cannot be the body of a response 304: for an upstream answer
    304 with a textual content type the constructor throws, and [fetch]
    answers 500.  The same answer without a content type is passed on. *)
Lemma not_modified_text_is_500 :
  fetch (fun _ => Normal (response_at 304 "content-type" "text/html" NoBody))
    fallback_page (request_of "gh.example.org" "/" []) (env_of "github.com")
  = Normal internal_server_error /\
  fetch (fun _ => Normal (response_at 304 "etag" "W/1" NoBody))
    fallback_page (request_of "gh.example.org" "/" []) (env_of "github.com")
  = Normal (response_at 304 "etag" "W/1" NoBody) /\
  fetch (fun _ => Normal (response_at 999 "etag" "W/1" (Stream "x")))
    fallback_page (request_of "gh.example.org" "/" []) (env_of "github.com")
  = Normal internal_server_error.
Proof. repeat split; vm_compute; reflexivity. Qed.

Lemma no_textual_content_type_is_opaque_witness :
  respond (response_at 304 "etag" "W/github.com" NoBody)
    "github.com" "gh.example.org" (env_of "github.com")
  = Normal {| status := 304;
              resp_headers := [("etag", "W/gh.example.org")];
              resp_body := NoBody |}.
Proof.
  exact (proj1 (no_textual_content_type_is_opaque (platform := fragment)
                  (response_at 304 "etag" "W/github.com" NoBody)
                  "github.com" "gh.example.org" (env_of "github.com")
                  [("etag", "W/gh.example.org")]
                  ltac:(vm_compute; reflexivity) eq_refl) eq_refl).
Defined.


(** C10, the claim as stated fails: the upstream sends [application/xml],
    the proxy hostname is ["xml"] and the origin ["json"]; the header
    becomes [application/json] and the body is rewritten. *)
Lemma content_type_made_textual :
  rewritable
    (content_type (resp_headers (response_of "content-type" "application/xml"
                                   "<a>xml</a>"))) = false /\
  fetch (fun _ => Normal (response_of "content-type" "application/xml"
                            "<a>xml</a>"))
    fallback_page (request_of "json" "/" []) (env_of "xml")
  = Normal {| status := 200;
              resp_headers := [("content-type", "application/json")];
              resp_body := Text "<a>json</a>" |}.
Proof. split; vm_compute; reflexivity. Qed.

(** ** The other host of the pair *)

(** The primitive is the substitution in the words of the claim. *)
Lemma substitute_from_eq (h t : list ascii) :
  h <> [] -> plain t ->
  forall f x, length (RegExp.after x) < f ->
    substitute_from f h t x = rewrite_at h t x.
Proof.
  intros Hne Ht. induction f as [|f IH]; intros x Hf; [lia|].
  cbn [substitute_from]. rewrite rewrite_at_eq by assumption.
  destruct (host_match h x) as [y|] eqn:Hm.
  - f_equal. apply IH.
    apply host_match_reaches in Hm as (w & Hlen & Ha & _).
    rewrite Ha, length_app in Hf. destruct h; [contradiction|].
    cbn [List.length] in Hlen. lia.
  - unfold copy_one. destruct (RegExp.after x) as [|ch rest] eqn:Hx;
      [reflexivity|].
    f_equal. apply IH. cbn [RegExp.after List.length] in *. lia.
Qed.

Lemma rewriteText_substitute_all (txt from to : string) :
  hostname_ok from -> from <> ""%string -> hostname_ok to ->
  rewriteText txt from to = Normal (substitute_all txt from to).
Proof.
  intros Hf Hne Ht. rewrite (rewriteText_eq txt from to Hf).
  unfold substitute_all. do 2 f_equal. symmetry.
  apply substitute_from_eq;
    [now apply chars_nonempty | now apply hostname_plain | cbn; lia].
Qed.

Lemma otherHost_pair (path : string) :
  otherHost (getGitHubProxyHost "github.com" path)
  = (if isGitHubAPIPath path then "github.com" else "api.github.com")%string.
Proof.
  unfold getGitHubProxyHost. rewrite String.eqb_refl. cbn [andb].
  destruct (isGitHubAPIPath path); reflexivity.
Qed.

(** C8.  With the base hostname ["github.com"], for a request that is let
    through and an answer whose body is rewritten, the body that [fetch]
    returns is the result of the first replacement in which, from left to
    right and over the whole text, every match of the other host of the
    pair is replaced by the origin: of ["github.com"] when the path made
    the proxy host ["api.github.com"], of ["api.github.com"] when it did
    not.  No pathname filter constrains this second replacement. *)
Theorem sibling_host_rewritten (upstream : Request -> completion Response)
  (page : string) (request nr : Request) (env : Env) (r : Response)
  (hs : Headers) (t1 : string) :
  PROXY_HOSTNAME env = Some "github.com"%string ->
  passes env request ->
  hostname_ok (host (url request)) ->
  createNewRequest request (upstream_url env request)
    (actual_host env request) (host (url request)) = Normal nr ->
  upstream nr = Normal r ->
  setResponseHeaders r (actual_host env request) (host (url request))
    (DEBUG env) = Normal hs ->
  rewritable (content_type hs) = true ->
  carries_text (status r) = true ->
  replaceProxyHost (body_text r) (actual_host env request)
    (PATHNAME_REGEX env) (host (url request)) = Normal t1 ->
  fetch upstream page request env =
  Normal {| status := status r; resp_headers := hs;
            resp_body :=
              Text (substitute_all t1 (otherHost (actual_host env request))
                      (host (url request))) |} /\
  otherHost (actual_host env request) =
  (if isGitHubAPIPath (pathname (url request))
   then "github.com" else "api.github.com")%string.
Proof.
  intros Hp Hpass Hok Hn Hu Hs Hc Hst Ht1.
  assert (Hother : otherHost (actual_host env request) =
                   (if isGitHubAPIPath (pathname (url request))
                    then "github.com" else "api.github.com")%string).
  { unfold actual_host. rewrite Hp. apply otherHost_pair. }
  split; [|exact Hother].
  unfold fetch. rewrite (handle_forwards upstream page request env Hpass).
  cbv zeta. fold (actual_host env request). fold (upstream_url env request).
  rewrite Hn. cbn [bind]. rewrite Hu. cbn [bind].
  rewrite (respond_rewritten _ _ _ _ _ Hs Hc).
  unfold replaceResponseText. rewrite Ht1, Hp, String.eqb_refl. cbn [bind].
  rewrite rewriteText_substitute_all.
  - cbn [bind]. now rewrite new_Response_carries.
  - rewrite Hother. now destruct (isGitHubAPIPath (pathname (url request))).
  - rewrite Hother. now destruct (isGitHubAPIPath (pathname (url request))).
  - exact Hok.
Qed.

Lemma sibling_host_rewritten_witness :
  fetch (fun _ => Normal (response_of "content-type" "text/html"
                   "api.github.com/x github.com/x github.com/rocq-prover/y"))
    fallback_page (request_of "gh.example.org" "/rocq-prover/rocq" [])
    (with_pathname_regex (env_of "github.com") "^/rocq-prover")
  = Normal {| status := 200;
              resp_headers := [("content-type", "text/html")];
              resp_body :=
                Text "gh.example.org/x github.com/x gh.example.org/rocq-prover/y" |}.
Proof.
  rewrite (proj1 (sibling_host_rewritten
                    (fun _ => Normal (response_of "content-type" "text/html"
                       "api.github.com/x github.com/x github.com/rocq-prover/y"))
                    fallback_page
                    (request_of "gh.example.org" "/rocq-prover/rocq" [])
                    {| url := upstream_url
                                (with_pathname_regex (env_of "github.com")
                                   "^/rocq-prover")
                                (request_of "gh.example.org"
                                   "/rocq-prover/rocq" []);
                       method := "GET"; headers := []; body := "";
                       redirect := "follow" |}
                    (with_pathname_regex (env_of "github.com") "^/rocq-prover")
                    (response_of "content-type" "text/html"
                       "api.github.com/x github.com/x github.com/rocq-prover/y")
                    [("content-type", "text/html")]
                    "api.github.com/x github.com/x gh.example.org/rocq-prover/y"
                    eq_refl ltac:(vm_compute; reflexivity) eq_refl
                    ltac:(vm_compute; reflexivity) eq_refl
                    ltac:(vm_compute; reflexivity)
                    ltac:(vm_compute; reflexivity) eq_refl
                    ltac:(vm_compute; reflexivity))).
  vm_compute. reflexivity.
Defined.

(** ** Reading a pattern inside a group *)

Local Close Scope string_scope.

Lemma parse_term_S (f : nat) (s : list ascii) :
  RegExp.parse_term (S f) s =
  match s with
  | [] => None
  | c :: rest =>
      match RegExp.classify c with
      | RegExp.TBol => Some (RegExp.Bol, rest)
      | RegExp.TEol => Some (RegExp.Eol, rest)
      | RegExp.TDot => RegExp.quantify (RegExp.Atom RegExp.Dot) rest
      | RegExp.TLit => RegExp.quantify (RegExp.Atom (RegExp.Lit c)) rest
      | RegExp.TBackslash =>
          match rest with
          | [] => None
          | e :: rest' =>
              if Ascii.eqb e "b" then Some (RegExp.WordB, rest')
              else if Ascii.eqb e "B" then Some (RegExp.NotWordB, rest')
              else match RegExp.escape_atom e with
                   | Some a => RegExp.quantify (RegExp.Atom a) rest'
                   | None => None
                   end
          end
      | RegExp.TLParen =>
          match RegExp.group_kind rest with
          | RegExp.Capturing =>
              match RegExp.parse_disj f rest with
              | Some (d, s1) =>
                  match RegExp.expect_rparen s1 with
                  | Some s2 => RegExp.quantify (RegExp.Group d) s2
                  | None => None
                  end
              | None => None
              end
          | RegExp.NonCapturing rest2 =>
              match RegExp.parse_disj f rest2 with
              | Some (d, s1) =>
                  match RegExp.expect_rparen s1 with
                  | Some s2 => RegExp.quantify d s2
                  | None => None
                  end
              | None => None
              end
          | RegExp.NegLookbehind rest2 =>
              match RegExp.parse_atom rest2 with
              | Some (a, s1) =>
                  match RegExp.expect_rparen s1 with
                  | Some s2 => Some (RegExp.NotBehind a, s2)
                  | None => None
                  end
              | None => None
              end
          | RegExp.OtherGroup => None
          end
      | _ => None
      end
  end.
Proof. reflexivity. Qed.

Lemma no_lazy_ext (r r' : RegExp.regex) (s s' t : list ascii) :
  closes t -> RegExp.no_lazy r s = Some (r', s') ->
  RegExp.no_lazy r (s ++ t) = Some (r', s' ++ t).
Proof.
  intros Ht. destruct s as [|c s]; cbn [RegExp.no_lazy List.app].
  - intros [= <- <-]. destruct t as [|c t]; [reflexivity|].
    cbn [RegExp.no_lazy closes] in *. now rewrite Ht.
  - destruct (RegExp.classify c); intros [= <- <-]; reflexivity.
Qed.

Lemma quantify_ext (r r' : RegExp.regex) (s s' t : list ascii) :
  closes t -> RegExp.quantify r s = Some (r', s') ->
  RegExp.quantify r (s ++ t) = Some (r', s' ++ t).
Proof.
  intros Ht. destruct s as [|c s]; cbn [RegExp.quantify List.app].
  - intros [= <- <-]. destruct t as [|c t]; [reflexivity|].
    cbn [RegExp.quantify closes] in *. now rewrite Ht.
  - destruct (RegExp.classify c); try (intros [= <- <-]; reflexivity);
      try (now apply no_lazy_ext).
    destruct (Ascii.eqb c "{"); [discriminate|].
    intros [= <- <-]. reflexivity.
Qed.

Lemma expect_rparen_ext (s s' t : list ascii) :
  RegExp.expect_rparen s = Some s' ->
  RegExp.expect_rparen (s ++ t) = Some (s' ++ t).
Proof.
  destruct s as [|c s]; cbn [RegExp.expect_rparen List.app]; [discriminate|].
  destruct (RegExp.classify c); try discriminate. now intros [= <-].
Qed.

Lemma parse_atom_ext (s s' t : list ascii) (a : RegExp.atom) :
  RegExp.parse_atom s = Some (a, s') ->
  RegExp.parse_atom (s ++ t) = Some (a, s' ++ t).
Proof.
  destruct s as [|c s]; cbn [RegExp.parse_atom List.app]; [discriminate|].
  destruct (RegExp.classify c); try discriminate;
    try (now intros [= <- <-]).
  destruct s as [|e s]; [discriminate|]. cbn [List.app].
  destruct (RegExp.escape_atom e); [|discriminate]. now intros [= <- <-].
Qed.

Lemma group_kind_ext (s t : list ascii) :
  match RegExp.group_kind s with
  | RegExp.Capturing => s = [] \/ RegExp.group_kind (s ++ t) = RegExp.Capturing
  | RegExp.NonCapturing r =>
      RegExp.group_kind (s ++ t) = RegExp.NonCapturing (r ++ t)
  | RegExp.NegLookbehind r =>
      RegExp.group_kind (s ++ t) = RegExp.NegLookbehind (r ++ t)
  | RegExp.OtherGroup => True
  end.
Proof.
  destruct s as [|q s]; [now left|]. cbn [RegExp.group_kind List.app].
  destruct (RegExp.classify q); try (now right).
  destruct s as [|c1 s]; [exact I|]. cbn [List.app].
  destruct (Ascii.eqb c1 ":"); [reflexivity|].
  destruct (Ascii.eqb c1 "<"); [|exact I].
  destruct s as [|c2 s]; [exact I|]. cbn [List.app].
  destruct (Ascii.eqb c2 "!"); [reflexivity | exact I].
Qed.

Lemma parse_disj_nil (f : nat) (d : RegExp.regex) (s1 : list ascii) :
  RegExp.parse_disj f [] = Some (d, s1) -> s1 = [].
Proof.
  destruct f as [|f]; [discriminate|]. rewrite parse_disj_S.
  destruct f as [|f]; [discriminate|]. rewrite parse_alt_S.
  now intros [= _ <-].
Qed.

(** A pattern text that is read with some fuel is read the same way with
    more fuel and with a closing text after it. *)
Lemma parse_ext (f : nat) :
  (forall f' s r s' t, f <= f' -> closes t ->
     RegExp.parse_disj f s = Some (r, s') ->
     RegExp.parse_disj f' (s ++ t) = Some (r, s' ++ t)) /\
  (forall f' s r s' t, f <= f' -> closes t ->
     RegExp.parse_alt f s = Some (r, s') ->
     RegExp.parse_alt f' (s ++ t) = Some (r, s' ++ t)) /\
  (forall f' s r s' t, f <= f' -> closes t ->
     RegExp.parse_term f s = Some (r, s') ->
     RegExp.parse_term f' (s ++ t) = Some (r, s' ++ t)).
Proof.
  induction f as [|f (IHd & IHa & IHt)].
  { repeat split; intros; discriminate. }
  split; [|split]; intros f' s r s' t Hle Ht;
    (destruct f' as [|f']; [lia|]); apply le_S_n in Hle.
  - rewrite !parse_disj_S.
    destruct (RegExp.parse_alt f s) as [[a s1]|] eqn:Ha; [|discriminate].
    rewrite (IHa f' s a s1 t Hle Ht Ha).
    destruct s1 as [|c s2]; cbn [List.app].
    + intros [= <- <-]. destruct t as [|c t]; [reflexivity|].
      cbn [closes] in Ht. now rewrite Ht.
    + destruct (RegExp.classify c); try (now intros [= <- <-]).
      destruct (RegExp.parse_disj f s2) as [[d s3]|] eqn:Hd; [|discriminate].
      intros [= <- <-]. now rewrite (IHd f' s2 d s3 t Hle Ht Hd).
  - rewrite !parse_alt_S. destruct s as [|c s]; cbn [List.app].
    + intros [= <- <-]. destruct t as [|c t]; [reflexivity|].
      cbn [closes] in Ht. now rewrite Ht.
    + change (c :: s ++ t)%list with ((c :: s) ++ t)%list.
      destruct (RegExp.classify c);
        try (now intros [= <- <-]);
        (destruct (RegExp.parse_term f (c :: s)) as [[t1 s1]|] eqn:H1;
           [|discriminate];
         rewrite (IHt f' (c :: s) t1 s1 t Hle Ht H1);
         destruct (RegExp.parse_alt f s1) as [[r2 s2]|] eqn:H2;
           [|discriminate];
         rewrite (IHa f' s1 r2 s2 t Hle Ht H2);
         now intros [= <- <-]).
  - rewrite !parse_term_S. destruct s as [|c rest]; [discriminate|].
    cbn [List.app]. destruct (RegExp.classify c); try discriminate.
    + now intros [= <- <-].
    + now intros [= <- <-].
    + destruct rest as [|e rest']; [discriminate|]. cbn [List.app].
      destruct (Ascii.eqb e "b"); [now intros [= <- <-]|].
      destruct (Ascii.eqb e "B"); [now intros [= <- <-]|].
      destruct (RegExp.escape_atom e); [|discriminate].
      now apply quantify_ext.
    + pose proof (group_kind_ext rest t) as Hk.
      destruct (RegExp.group_kind rest) as [|rest2|rest2|].
      * destruct (RegExp.parse_disj f rest) as [[d s1]|] eqn:Hd;
          [|discriminate].
        destruct (RegExp.expect_rparen s1) as [s2|] eqn:He; [|discriminate].
        intros Hq. destruct Hk as [-> | Hk].
        { apply parse_disj_nil in Hd. subst s1. discriminate. }
        rewrite Hk, (IHd f' rest d s1 t Hle Ht Hd).
        rewrite (expect_rparen_ext s1 s2 t He).
        now apply quantify_ext.
      * destruct (RegExp.parse_disj f rest2) as [[d s1]|] eqn:Hd;
          [|discriminate].
        destruct (RegExp.expect_rparen s1) as [s2|] eqn:He; [|discriminate].
        intros Hq.
        rewrite Hk, (IHd f' rest2 d s1 t Hle Ht Hd).
        rewrite (expect_rparen_ext s1 s2 t He).
        now apply quantify_ext.
      * destruct (RegExp.parse_atom rest2) as [[a s1]|] eqn:Hd;
          [|discriminate].
        destruct (RegExp.expect_rparen s1) as [s2|] eqn:He; [|discriminate].
        intros [= <- <-].
        rewrite Hk, (parse_atom_ext rest2 s1 t a Hd).
        now rewrite (expect_rparen_ext s1 s2 t He).
      * discriminate.
    + now apply quantify_ext.
    + now apply quantify_ext.
Qed.

Lemma parse_disj_quest (f : nat) (c : ascii) (s : list ascii) :
  RegExp.classify c = RegExp.TQuest -> RegExp.parse_disj f (c :: s) = None.
Proof.
  intros Hc. destruct f as [|f]; [reflexivity|]. rewrite parse_disj_S.
  destruct f as [|f]; [reflexivity|]. rewrite parse_alt_S, Hc.
  destruct f as [|f]; [reflexivity|]. now rewrite parse_term_S, Hc.
Qed.

Lemma group_kind_body (p : list ascii) (f : nat) (rp : RegExp.regex)
  (s' : list ascii) :
  RegExp.parse_disj f p = Some (rp, s') ->
  RegExp.group_kind (p ++ [")"%char]) = RegExp.Capturing.
Proof.
  destruct p as [|c p]; [reflexivity|]. intros H.
  cbn [List.app RegExp.group_kind].
  destruct (RegExp.classify c) eqn:Hc; try reflexivity.
  now rewrite (parse_disj_quest f c p Hc) in H.
Qed.

Ltac classify_parens :=
  cbv beta iota;
  repeat (progress (change (RegExp.classify ")") with RegExp.TRParen;
                    change (RegExp.classify "(") with RegExp.TLParen;
                    cbv beta iota)).

Lemma parse_disj_host_path (h p : list ascii) (rp : RegExp.regex) (f : nat) :
  forallb hostname_char h = true ->
  RegExp.parse_disj (RegExp.parse_fuel p) p = Some (rp, []) ->
  RegExp.parse_fuel p <= S (S (length h + S (S f))) ->
  RegExp.parse_disj (S (S (S (S (S (S (length h + S (S f))))))))
    ("(" :: "(" :: "?" :: "<" :: "!" :: "\" :: "." :: ")" :: "\" :: "b"
       :: h ++ "\" :: "b" :: ")" :: "(" :: p ++ [")"])%char
  = Some (host_path_regex h rp, []).
Proof.
  intros Hh Hp Hfuel.
  rewrite parse_disj_S, parse_alt_S. classify_parens.
  rewrite parse_term_S. classify_parens.
  change (RegExp.group_kind
            ("(" :: "?" :: "<" :: "!" :: "\" :: "." :: ")" :: "\" :: "b"
               :: h ++ "\" :: "b" :: ")" :: "(" :: p ++ [")"])%char)
    with RegExp.Capturing. cbv iota.
  rewrite parse_disj_S, parse_alt_guarded by exact Hh.
  rewrite parse_alt_S. classify_parens.
  change (RegExp.expect_rparen (")" :: "(" :: p ++ [")"])%char)
    with (Some ("(" :: p ++ [")"])%char). cbv iota.
  change (RegExp.quantify (RegExp.Group (guarded h RegExp.Empty))
            ("(" :: p ++ [")"])%char)
    with (Some (RegExp.Group (guarded h RegExp.Empty),
                ("(" :: p ++ [")"])%char)). cbv iota.
  rewrite parse_alt_S. classify_parens.
  rewrite parse_term_S. classify_parens.
  rewrite (group_kind_body p _ rp [] Hp).
  rewrite (proj1 (parse_ext (RegExp.parse_fuel p)) _ p rp [] [")"%char]
             Hfuel eq_refl Hp).
  reflexivity.
Qed.

Lemma chars_host_path_pattern (h p : string) :
  chars (host_path_pattern h p) =
  ("(" :: "(" :: "?" :: "<" :: "!" :: "\" :: "." :: ")" :: "\" :: "b"
     :: chars h ++ "\" :: "b" :: ")" :: "(" :: chars p ++ [")"])%char.
Proof.
  unfold host_path_pattern. rewrite !chars_append. reflexivity.
Qed.

Lemma parse_host_path_pattern (h p : string) (rp : RegExp.regex) :
  hostname_ok h -> RegExp.parse p = Some rp ->
  RegExp.parse (host_path_pattern h p)
  = Some (host_path_regex (chars h) rp).
Proof.
  intros Hh Hp. unfold RegExp.parse in *. rewrite chars_host_path_pattern.
  destruct (RegExp.parse_disj (RegExp.parse_fuel (chars p)) (chars p))
    as [[rp' [|c rest]]|] eqn:Hd; try discriminate.
  injection Hp as ->.
  match goal with |- context [RegExp.parse_disj ?n _] =>
    replace n with (S (S (S (S (S (S (length (chars h)
        + S (S (2 * length (chars h) + 3 * length (chars p) + 40)))))))))
  end.
  2:{ unfold RegExp.parse_fuel. cbn [List.length].
      rewrite length_app. cbn [List.length]. rewrite length_app.
      cbn [List.length]. lia. }
  rewrite (parse_disj_host_path _ _ rp _ Hh Hd); [reflexivity|].
  unfold RegExp.parse_fuel. lia.
Qed.

(** ** The end of a match does not depend on the captures *)

Lemma option_map_orelse (a b : RegExp.result) :
  option_map fst (RegExp.orelse a b) =
  match option_map fst a with
  | Some v => Some v
  | None => option_map fst b
  end.
Proof. now destruct a. Qed.

Lemma repeat_end body body' (k k' : RegExp.cont) (n : nat) :
  (forall x c c' k1 k2, same_end k1 k2 ->
     option_map fst (body x c k1) = option_map fst (body' x c' k2)) ->
  same_end k k' ->
  forall x c c',
    option_map fst (RegExp.repeat body k n x c)
    = option_map fst (RegExp.repeat body' k' n x c').
Proof.
  intros Hbody Hk. induction n as [|n IH]; intros x c c'; cbn [RegExp.repeat].
  - apply Hk.
  - rewrite !option_map_orelse.
    rewrite (Hbody x c c' _
               (fun y c2 => if RegExp.moved x y
                            then RegExp.repeat body' k' n y c2 else None)).
    + now rewrite (Hk x c c').
    + intros z c1 c2. destruct (RegExp.moved x z); [apply IH | reflexivity].
Qed.

Lemma m_end (r : RegExp.regex) :
  forall g g' x c c' k k', same_end k k' ->
    option_map fst (RegExp.m r g x c k) = option_map fst (RegExp.m r g' x c' k').
Proof.
  induction r as [ | a | | | | | a | r1 IH1 r2 IH2 | r1 IH1 r2 IH2
                 | r1 IH1 | r1 IH1 | r1 IH1 | r1 IH1 ];
    intros g g' x c c' k k' Hk; cbn [RegExp.m].
  - apply Hk.
  - destruct (RegExp.after x) as [|ch rest]; [reflexivity|].
    destruct (RegExp.atom_matches a ch); [apply Hk | reflexivity].
  - destruct (RegExp.before x); [apply Hk | reflexivity].
  - destruct (RegExp.after x); [apply Hk | reflexivity].
  - destruct (RegExp.at_boundary x); [apply Hk | reflexivity].
  - destruct (RegExp.at_boundary x); [reflexivity | apply Hk].
  - destruct (RegExp.before x) as [|ch bef]; [apply Hk|].
    destruct (RegExp.atom_matches a ch); [reflexivity | apply Hk].
  - apply IH1. intros z c1 c2. now apply IH2.
  - rewrite !option_map_orelse.
    rewrite (IH1 g g' x c c' k k' Hk).
    now rewrite (IH2 (g + RegExp.ngroups r1) (g' + RegExp.ngroups r1)
                   x c c' k k' Hk).
  - apply repeat_end; [|exact Hk].
    intros y c1 c2 k1 k2 Hk12. now apply IH1.
  - apply IH1. intros z c1 c2. apply repeat_end; [|exact Hk].
    intros y c3 c4 k1 k2 Hk12. now apply IH1.
  - rewrite !option_map_orelse.
    rewrite (IH1 g g' x (RegExp.clear g (RegExp.ngroups r1) c)
               (RegExp.clear g' (RegExp.ngroups r1) c')
               (fun y c1 => if RegExp.moved x y then k y c1 else None)
               (fun y c1 => if RegExp.moved x y then k' y c1 else None)).
    + now rewrite (Hk x c c').
    + intros z c1 c2. destruct (RegExp.moved x z); [apply Hk | reflexivity].
  - apply IH1. intros z c1 c2. apply Hk.
Qed.

(** ** Matching the pattern of hostname and path *)

Lemma ngroups_host_seq (h : list ascii) (r : RegExp.regex) :
  RegExp.ngroups (host_seq h r) = RegExp.ngroups r.
Proof. induction h as [|c h IH]; [reflexivity | exact IH]. Qed.

Lemma ngroups_guarded (h : list ascii) (r : RegExp.regex) :
  RegExp.ngroups (guarded h r) = RegExp.ngroups r.
Proof. unfold guarded. cbn [RegExp.ngroups]. now rewrite ngroups_host_seq. Qed.


Lemma match_at_host_path_regex (h : list ascii) (rp : RegExp.regex)
  (x : RegExp.state) :
  RegExp.match_at (host_path_regex h rp) x =
  match host_match h x with
  | Some y =>
      RegExp.m rp 3 y [(1, RegExp.between x y)]
        (fun z c => Some (z, (2, RegExp.between y z) :: c))
  | None => None
  end.
Proof.
  unfold RegExp.match_at, host_path_regex. cbn [RegExp.m].
  rewrite m_guarded. destruct (host_match h x) as [y|]; [|reflexivity].
  cbn [RegExp.m RegExp.ngroups]. rewrite ngroups_guarded.
  reflexivity.
Qed.


Lemma match_at_host_path_none (h : list ascii) (rp : RegExp.regex)
  (x : RegExp.state) :
  match host_match h x with
  | Some y => path_match rp y = None
  | None => True
  end ->
  RegExp.match_at (host_path_regex h rp) x = None.
Proof.
  rewrite match_at_host_path_regex.
  destruct (host_match h x) as [y|]; [|reflexivity].
  unfold path_match, RegExp.match_at. intros Hp.
  pose proof (m_end rp 3 1 y [(1, RegExp.between x y)] []
                (fun z c => Some (z, (2, RegExp.between y z) :: c))
                (fun z c => Some (z, c))
                ltac:(intros ? ? ?; reflexivity)) as He.
  rewrite Hp in He.
  now destruct (RegExp.m rp 3 y [(1, RegExp.between x y)]
                  (fun z c => Some (z, (2, RegExp.between y z) :: c))).
Qed.

Local Open Scope string_scope.

(** ** The constrained substitution *)








(** * More of the worker *)

(** ** The headers of the platform *)

Lemma get_set_same (h : Headers) (name value : string) :
  get (set h name value) name = Some value.
Proof.
  induction h as [|[k v] h IH]; cbn [set get].
  - now rewrite String.eqb_refl.
  - destruct (String.eqb k name) eqn:Hk; cbn [get]; now rewrite Hk.
Qed.

Lemma get_set_other (h : Headers) (name value other : string) :
  other <> name -> get (set h name value) other = get h other.
Proof.
  intros Hne. induction h as [|[k v] h IH]; cbn [set get].
  - destruct (String.eqb_spec name other) as [->|_]; [now elim Hne | reflexivity].
  - destruct (String.eqb_spec k name) as [->|Hk]; cbn [get].
    + destruct (String.eqb_spec name other) as [->|_];
        [now elim Hne | reflexivity].
    + now rewrite IH.
Qed.

Lemma get_delete_same (h : Headers) (name : string) :
  get (delete h name) name = None.
Proof.
  induction h as [|[k v] h IH]; [reflexivity|].
  cbn [delete filter fst]. fold (delete h name).
  destruct (String.eqb k name) eqn:Hk; cbn [negb get]; [exact IH|].
  now rewrite Hk.
Qed.

Lemma names_delete (h : Headers) (name : string) :
  map fst (delete h name)
  = filter (fun k => negb (String.eqb k name)) (map fst h).
Proof.
  induction h as [|[k v] h IH]; [reflexivity|].
  cbn [delete filter fst map]. fold (delete h name).
  destruct (String.eqb k name); cbn [negb map fst]; now rewrite IH.
Qed.

(** ** Host resolution, again *)

(** X11.  The prefix test looks at the start of the path alone: a path
    that is an API path stays one whatever is put after it. *)
Theorem isGitHubAPIPath_extends (path more : string) :
  isGitHubAPIPath path = true -> isGitHubAPIPath (path ++ more) = true.
Proof.
  unfold isGitHubAPIPath. rewrite !existsb_exists.
  intros (p & Hin & Hp). exists p. split; [exact Hin|].
  apply startsWith_iff in Hp as [rest ->]. apply startsWith_iff.
  exists (rest ++ more). apply chars_inj.
  now rewrite !chars_append, app_assoc.
Qed.

Lemma isGitHubAPIPath_extends_witness :
  isGitHubAPIPath ("/user" ++ "name/repo") = true.
Proof.
  apply (isGitHubAPIPath_extends "/user" "name/repo"). reflexivity.
Defined.

(** X12.  The host that is resolved is the base hostname or
    ["api.github.com"], and resolving once more from it, with the same
    path, changes nothing. *)
Theorem getGitHubProxyHost_settles (baseHostname path : string) :
  (getGitHubProxyHost baseHostname path = baseHostname \/
   getGitHubProxyHost baseHostname path = "api.github.com") /\
  getGitHubProxyHost (getGitHubProxyHost baseHostname path) path
  = getGitHubProxyHost baseHostname path.
Proof.
  unfold getGitHubProxyHost.
  destruct (String.eqb_spec baseHostname "github.com") as [->|Hne];
    cbn [andb].
  - destruct (isGitHubAPIPath path) eqn:Hapi.
    + split; [now right | reflexivity].
    + split; [now left|]. now rewrite String.eqb_refl.
  - split; [now left|].
    destruct (String.eqb_spec baseHostname "github.com"); [contradiction|].
    reflexivity.
Qed.

(** ** The handler on any platform *)

Section HandlerOnAnyPlatform.

Context {platform : Platform}.

Variable upstream : Request -> completion Response.
Variable page : string.



(** X3.  The user agent filters see the header in lower case only: two
    values of the header that differ in case alone get the same
    decision. *)
Theorem user_agent_case_is_ignored (request : Request) (env : Env)
  (ua ua' : string) :
  toLowerCase ua = toLowerCase ua' ->
  invalid env (with_header request "user-agent" ua)
  = invalid env (with_header request "user-agent" ua').
Proof.
  intros Hl. unfold invalid. cbn [pathname with_header url].
  assert (Hu : forall p,
             test_user_agent p (with_header request "user-agent" ua)
             = test_user_agent p (with_header request "user-agent" ua')).
  { intros p. unfold test_user_agent. cbn [headers with_header get].
    rewrite String.eqb_refl. cbn [lower_case_of]. now rewrite Hl. }
  assert (Hh : forall p other, other <> "user-agent" ->
             test_header p (with_header request "user-agent" ua) other
             = test_header p (with_header request "user-agent" ua') other).
  { intros p other Hne. now rewrite !test_header_with_other. }
  repeat (f_equal; try (apply configured_ext; intros p;
                        rewrite ?Hu; rewrite ?Hh by discriminate;
                        reflexivity)).
Qed.

(** X4.  [fetch] never throws, and a request that is let through and whose
    upstream fails is answered with the response 500. *)
Theorem upstream_fault_is_500 (request : Request) (env : Env) :
  (forall e, fetch upstream page request env <> Throw e) /\
  (forall nr e,
     passes env request ->
     createNewRequest request (upstream_url env request)
       (actual_host env request) (host (url request)) = Normal nr ->
     upstream nr = Throw e ->
     fetch upstream page request env = Normal internal_server_error).
Proof.
  split.
  - intros e. unfold fetch.
    destruct (handle upstream page request env); discriminate.
  - intros nr e Hp Hn Hu. unfold fetch.
    rewrite (handle_forwards upstream page request env Hp). cbv zeta.
    fold (actual_host env request). fold (upstream_url env request).
    rewrite Hn. cbn [bind]. rewrite Hu. reflexivity.
Qed.


End HandlerOnAnyPlatform.



Lemma user_agent_case_is_ignored_witness :
  invalid (with_ua_whitelist (env_of "github.com") "curl")
    (with_header (request_of "gh.example.org" "/" []) "user-agent" "Curl/8.0")
  = invalid (with_ua_whitelist (env_of "github.com") "curl")
      (with_header (request_of "gh.example.org" "/" []) "user-agent"
         "CURL/8.0").
Proof.
  apply (user_agent_case_is_ignored (platform := fragment)).
  vm_compute. reflexivity.
Defined.

Lemma upstream_fault_is_500_witness :
  fetch (fun _ => Throw NetworkError) fallback_page
    (request_of "gh.example.org" "/" []) (env_of "github.com")
  = Normal internal_server_error.
Proof.
  apply (proj2 (upstream_fault_is_500 (platform := fragment)
                  (fun _ => Throw NetworkError) fallback_page
                  (request_of "gh.example.org" "/" []) (env_of "github.com"))
           {| url := upstream_url (env_of "github.com")
                       (request_of "gh.example.org" "/" []);
              method := "GET"; headers := []; body := "";
              redirect := "follow" |}
           NetworkError).
  - vm_compute. reflexivity.
  - vm_compute. reflexivity.
  - reflexivity.
Defined.


(** ** The requests and the headers on any platform *)

Section HeadersOnAnyPlatform.

Context {platform : Platform}.

Lemma rewriteHeaders_names (h h' : Headers) (from to : string) :
  rewriteHeaders h from to = Normal h' -> map fst h' = map fst h.
Proof.
  revert h'. induction h as [|[k v] h IH]; intros h'; cbn [rewriteHeaders].
  - now intros [= <-].
  - intros H. apply bind_Normal in H as (v' & _ & H).
    apply bind_Normal in H as (rest & Hrest & [= <-]).
    cbn [map fst]. now rewrite (IH rest Hrest).
Qed.

(** X6.  On headers with one entry per name the loop keeps the names,
    their order and their number, so there is still one entry per name;
    only values change. *)
Theorem rewriteHeaders_keeps_names (h h' : Headers) (from to : string) :
  one_per_name h = true ->
  rewriteHeaders h from to = Normal h' ->
  map fst h' = map fst h /\ one_per_name h' = true.
Proof.
  intros Hone H. apply rewriteHeaders_names in H. unfold one_per_name in *.
  now rewrite H.
Qed.

(** X7.  When no value includes the hostname, the headers come back as
    they are and no pattern is made from the hostname: the loop cannot
    fail, whatever the hostname is. *)
Theorem rewriteHeaders_untouched (h : Headers) (from to : string) :
  no_value_includes h from -> rewriteHeaders h from to = Normal h.
Proof.
  unfold no_value_includes. induction h as [|[k v] h IH]; intros Hno;
    [reflexivity|].
  cbn [rewriteHeaders]. rewrite (Hno k v (or_introl eq_refl)). cbn [bind].
  rewrite IH; [reflexivity|]. intros k' v' Hin. apply (Hno k' v').
  now right.
Qed.

(** X8.  With [DEBUG] set, the response headers have no
    [content-security-policy]; when the upstream headers have one entry
    per name, the other headers keep their names and their order. *)
Theorem debug_strips_csp (r : Response) (proxy origin : string)
  (debug : option string) (hs : Headers) :
  truthy debug = true ->
  setResponseHeaders r proxy origin debug = Normal hs ->
  get hs "content-security-policy" = None /\
  (one_per_name (resp_headers r) = true ->
   map fst hs
   = filter (fun k => negb (String.eqb k "content-security-policy"))
       (map fst (resp_headers r))).
Proof.
  intros Hd H. unfold setResponseHeaders in H.
  apply bind_Normal in H as (h & Hh & [= <-]). rewrite Hd. split.
  - apply get_delete_same.
  - intros _. now rewrite names_delete, (rewriteHeaders_names _ _ _ _ Hh).
Qed.

(** X9.  A request for ["api.github.com"] carries a [user-agent] and an
    [accept] header: the ones of the client when it sent them, the
    defaults of the worker when it did not; the other headers are those of
    the loop. *)
Theorem api_request_has_user_agent_and_accept (request nr : Request)
  (u : URL) (origin : string) :
  createNewRequest request u "api.github.com" origin = Normal nr ->
  exists h,
    rewriteHeaders (headers request) origin "api.github.com" = Normal h /\
    get (headers nr) "user-agent"
    = Some (match get h "user-agent" with
            | Some v => v
            | None => "Cloudflare-Workers-Proxy"
            end) /\
    get (headers nr) "accept"
    = Some (match get h "accept" with
            | Some v => v
            | None => "application/vnd.github+json"
            end) /\
    (forall name, name <> "user-agent" -> name <> "accept" ->
                  get (headers nr) name = get h name).
Proof.
  unfold createNewRequest. intros H.
  apply bind_Normal in H as (h & Hh & [= <-]). exists h.
  split; [exact Hh|]. cbn [headers]. unfold has.
  destruct (get h "user-agent") as [ua|] eqn:Hua; cbv iota.
  - destruct (get h "accept") as [ac|] eqn:Hac; cbv iota.
    + repeat split; assumption.
    + repeat split.
      * rewrite get_set_other by discriminate. exact Hua.
      * apply get_set_same.
      * intros name _ Hn. now apply get_set_other.
  - rewrite (get_set_other h "user-agent" "Cloudflare-Workers-Proxy"
               "accept") by discriminate.
    destruct (get h "accept") as [ac|] eqn:Hac; cbv iota.
    + repeat split.
      * apply get_set_same.
      * rewrite get_set_other by discriminate. exact Hac.
      * intros name Hn _. now apply get_set_other.
    + repeat split.
      * rewrite get_set_other by discriminate. apply get_set_same.
      * apply get_set_same.
      * intros name Hn1 Hn2. now rewrite !get_set_other.
Qed.

(** X10.  The request that is sent has the URL it is given, the method
    and the body of the client and the redirect mode [follow]; for a host
    other than ["api.github.com"] and a client whose headers have one
    entry per name, it has the header names of the client, in their
    order, and no other. *)
Theorem createNewRequest_carries_the_request (request nr : Request)
  (u : URL) (proxy origin : string) :
  createNewRequest request u proxy origin = Normal nr ->
  url nr = u /\ method nr = method request /\ body nr = body request /\
  redirect nr = "follow" /\
  (proxy <> "api.github.com" -> one_per_name (headers request) = true ->
   map fst (headers nr) = map fst (headers request)).
Proof.
  unfold createNewRequest. intros H.
  apply bind_Normal in H as (h & Hh & [= <-]).
  cbn [url method body redirect headers]. repeat split.
  intros Hne _. destruct (String.eqb_spec proxy "api.github.com");
    [contradiction|].
  now apply rewriteHeaders_names in Hh.
Qed.

End HeadersOnAnyPlatform.

Lemma rewriteHeaders_keeps_names_witness :
  map fst [("referer", "https://github.com/a"); ("accept", "*/*")]
  = map fst [("referer", "https://gh.example.org/a"); ("accept", "*/*")] /\
  one_per_name [("referer", "https://github.com/a"); ("accept", "*/*")]
  = true.
Proof.
  exact (rewriteHeaders_keeps_names (platform := fragment)
           [("referer", "https://gh.example.org/a"); ("accept", "*/*")]
           [("referer", "https://github.com/a"); ("accept", "*/*")]
           "gh.example.org" "github.com" eq_refl
           ltac:(vm_compute; reflexivity)).
Defined.

Lemma rewriteHeaders_untouched_witness :
  rewriteHeaders [("accept", "*/*"); ("x-id", "7")] "[not(a-pattern" "x"
  = Normal [("accept", "*/*"); ("x-id", "7")].
Proof.
  apply (rewriteHeaders_untouched (platform := fragment)).
  intros k v [[= <- <-] | [[= <- <-] | []]]; vm_compute; reflexivity.
Defined.

Lemma debug_strips_csp_witness :
  get [("content-type", "text/html")] "content-security-policy" = None.
Proof.
  exact (proj1 (debug_strips_csp (platform := fragment)
                  (response_with
                     [("content-security-policy", "default-src github.com");
                      ("content-type", "text/html")] "")
                  "github.com" "gh.example.org" (Some "1")
                  [("content-type", "text/html")]
                  eq_refl ltac:(vm_compute; reflexivity))).
Defined.

Lemma api_request_has_user_agent_and_accept_witness :
  exists h,
    rewriteHeaders [("accept", "text/html")] "gh.example.org"
      "api.github.com" = Normal h /\
    get [("accept", "text/html"); ("user-agent", "Cloudflare-Workers-Proxy")]
      "user-agent"
    = Some (match get h "user-agent" with
            | Some v => v
            | None => "Cloudflare-Workers-Proxy"
            end) /\
    get [("accept", "text/html"); ("user-agent", "Cloudflare-Workers-Proxy")]
      "accept"
    = Some (match get h "accept" with
            | Some v => v
            | None => "application/vnd.github+json"
            end) /\
    (forall name, name <> "user-agent" -> name <> "accept" ->
       get [("accept", "text/html");
            ("user-agent", "Cloudflare-Workers-Proxy")] name
       = get h name).
Proof.
  exact (api_request_has_user_agent_and_accept (platform := fragment)
           (request_of "gh.example.org" "/user" [("accept", "text/html")])
           {| url := upstream_url (env_of "github.com")
                       (request_of "gh.example.org" "/user"
                          [("accept", "text/html")]);
              method := "GET";
              headers := [("accept", "text/html");
                          ("user-agent", "Cloudflare-Workers-Proxy")];
              body := ""; redirect := "follow" |}
           (upstream_url (env_of "github.com")
              (request_of "gh.example.org" "/user" [("accept", "text/html")]))
           "gh.example.org" ltac:(vm_compute; reflexivity)).
Defined.

Lemma createNewRequest_carries_the_request_witness :
  method {| url := upstream_url (env_of "example.com")
                     (request_of "gh.example.org" "/a" [("x-id", "7")]);
            method := "GET"; headers := [("x-id", "7")]; body := "";
            redirect := "follow" |} = "GET".
Proof.
  exact (proj1 (proj2
           (createNewRequest_carries_the_request (platform := fragment)
              (request_of "gh.example.org" "/a" [("x-id", "7")])
              {| url := upstream_url (env_of "example.com")
                          (request_of "gh.example.org" "/a" [("x-id", "7")]);
                 method := "GET"; headers := [("x-id", "7")]; body := "";
                 redirect := "follow" |}
              (upstream_url (env_of "example.com")
                 (request_of "gh.example.org" "/a" [("x-id", "7")]))
              "example.com" "gh.example.org"
              ltac:(vm_compute; reflexivity)))).
Defined.

Section EmptyFilterOnAnyPlatform.

Context {platform : Platform}.

(** X18.  A [PATHNAME_REGEX] that is the empty text is no filter at all:
    the request is judged, sent and answered as if the binding were
    absent; in particular the body is rewritten without a constraint. *)
Theorem empty_pathname_regex_is_none
  (upstream : Request -> completion Response) (page : string)
  (request : Request) (env : Env) :
  fetch upstream page request (with_pathname_regex env "")
  = fetch upstream page request (without_pathname_regex env).
Proof.
  unfold fetch, handle, invalid, respond, replaceResponseText,
    replaceProxyHost, refusal.
  cbn [PROXY_HOSTNAME PROXY_PROTOCOL PATHNAME_REGEX UA_WHITELIST_REGEX
       UA_BLACKLIST_REGEX URL302 IP_WHITELIST_REGEX IP_BLACKLIST_REGEX
       REGION_WHITELIST_REGEX REGION_BLACKLIST_REGEX DEBUG
       with_pathname_regex without_pathname_regex configured truthy
       String.eqb negb].
  reflexivity.
Qed.

End EmptyFilterOnAnyPlatform.

(** ** The pattern of a hostname *)

Local Close Scope string_scope.

Lemma eat_app (a k : list ascii) (x : RegExp.state) :
  eat (a ++ k) x =
  match eat a x with
  | Some z => eat k z
  | None => None
  end.
Proof.
  revert x. induction a as [|c a IH]; intros x; [reflexivity|].
  cbn [List.app eat]. destruct (RegExp.after x) as [|ch rest]; [reflexivity|].
  destruct (RegExp.atom_matches (host_atom c) ch); [apply IH | reflexivity].
Qed.

Lemma starts_with_contains (p l : list ascii) :
  starts_with p l = true -> contains p l = true.
Proof. intros H. destruct l; cbn [contains]; now rewrite H. Qed.

Lemma contains_app (p w l : list ascii) :
  contains p l = true -> contains p (w ++ l) = true.
Proof.
  intros H. destruct (contains p (w ++ l)) eqn:Hc; [reflexivity|].
  apply contains_suffix in Hc. congruence.
Qed.

(** A match of the pattern of a hostname holds every piece of the hostname
    that has no dot, as it is written. *)
Lemma host_match_contains_chunk (a k rest : list ascii)
  (x y : RegExp.state) :
  dot_free k -> host_match (a ++ k ++ rest) x = Some y ->
  contains k (RegExp.after x) = true.
Proof.
  intros Hd. unfold host_match.
  destruct (negb (after_dot x) && RegExp.at_boundary x); [|discriminate].
  destruct (eat (a ++ k ++ rest) x) as [z|] eqn:He; [|discriminate].
  intros _. rewrite eat_app in He.
  destruct (eat a x) as [z1|] eqn:Ha; [|discriminate].
  rewrite eat_app in He.
  destruct (eat k z1) as [z2|] eqn:Hk; [|discriminate].
  apply eat_spec in Ha as (w & _ & Hafter & _). rewrite Hafter.
  apply contains_app, starts_with_contains.
  destruct z1 as [bef aft]. apply (eat_literal k Hd) in Hk as (r & -> & _).
  apply starts_with_app.
Qed.

(** Where the pattern matches nowhere, the replacement copies the
    subject. *)
Lemma replace_at_no_match (r : RegExp.regex) (t : list ascii)
  (ok : list ascii -> Prop) :
  (forall c l, ok (c :: l) -> ok l) ->
  (forall bef aft, ok aft -> RegExp.match_at r (RegExp.State bef aft) = None) ->
  forall aft bef, ok aft -> replace_at r t (RegExp.State bef aft) = aft.
Proof.
  intros Htail Hnone. induction aft as [|ch aft IH]; intros bef Hok;
    rewrite replace_at_eq, (Hnone _ _ Hok); cbn [RegExp.after RegExp.before].
  - reflexivity.
  - f_equal. apply IH. now apply (Htail ch).
Qed.

Local Open Scope string_scope.

Lemma has_chunk_chars (h chunk : string) :
  has_chunk h chunk ->
  exists a rest, chars h = (a ++ chars chunk ++ rest)%list.
Proof.
  intros (a & rest & ->). exists (chars a), (chars rest).
  now rewrite !chars_append.
Qed.

(** X13.  For every hostname the pattern of the worker is read, it has no
    group, and each of its matches has the length of the hostname, starts
    and ends at a word boundary and does not start after a dot. *)
Theorem host_pattern_match_shape (from : string) :
  hostname_ok from ->
  exists r,
    read_RegExp (host_pattern from) = Normal r /\
    RegExp.ngroups r = 0 /\
    forall x y c,
      RegExp.match_at r x = Some (y, c) ->
      after_dot x = false /\
      RegExp.at_boundary x = true /\ RegExp.at_boundary y = true /\
      exists w, length w = length (chars from) /\
                RegExp.after x = (w ++ RegExp.after y)%list.
Proof.
  intros Hok. exists (host_regex (chars from)). split; [|split].
  - unfold read_RegExp. now rewrite (parse_host_pattern from Hok).
  - apply ngroups_guarded.
  - intros x y c. rewrite match_at_host_regex.
    destruct (host_match (chars from) x) as [z|] eqn:Hm; [|discriminate].
    intros [= <- _].
    pose proof (host_match_reaches _ _ _ Hm) as (w & Hlen & Hafter & _).
    unfold host_match in Hm.
    destruct (after_dot x); [discriminate|].
    destruct (RegExp.at_boundary x); [|discriminate]. cbn [negb andb] in Hm.
    destruct (eat (chars from) x) as [z'|]; [|discriminate].
    destruct (RegExp.at_boundary z') eqn:Hb; [|discriminate].
    injection Hm as ->. repeat split; try assumption. now exists w.
Qed.

Lemma host_pattern_match_shape_witness :
  exists r,
    read_RegExp (host_pattern "github.com") = Normal r /\
    RegExp.ngroups r = 0 /\
    forall x y c,
      RegExp.match_at r x = Some (y, c) ->
      after_dot x = false /\
      RegExp.at_boundary x = true /\ RegExp.at_boundary y = true /\
      exists w, length w = length (chars "github.com") /\
                RegExp.after x = (w ++ RegExp.after y)%list.
Proof.
  apply (host_pattern_match_shape "github.com"). reflexivity.
Defined.

Lemma rewriteText_without_chunk (txt from to chunk : string) :
  hostname_ok from -> has_chunk from chunk -> dot_free (chars chunk) ->
  includes txt chunk = false ->
  rewriteText txt from to = Normal txt.
Proof.
  intros Hok Hchunk Hd Hno. rewrite (rewriteText_eq txt from to Hok).
  f_equal. rewrite <- (text_chars txt) at 2. f_equal.
  destruct (has_chunk_chars from chunk Hchunk) as (a & rest & Heq).
  apply (replace_at_no_match _ _
           (fun l => contains (chars chunk) l = false)).
  - intros c l. apply contains_tail.
  - intros bef aft Hc. rewrite match_at_host_regex.
    destruct (host_match (chars from) (RegExp.State bef aft)) as [y|] eqn:Hm;
      [|reflexivity].
    rewrite Heq in Hm. apply host_match_contains_chunk in Hm; [|exact Hd].
    cbn [RegExp.after] in Hm. congruence.
  - exact Hno.
Qed.

(** X14.  A text that does not include some piece of the hostname that has
    no dot (the label [github] of [github.com]) is left as it is by the
    substitution primitive, whatever the replacement. *)
Theorem rewriteText_unchanged (txt from to chunk : string) :
  hostname_ok from -> has_chunk from chunk -> dot_free (chars chunk) ->
  includes txt chunk = false ->
  rewriteText txt from to = Normal txt.
Proof. apply rewriteText_without_chunk. Qed.

Lemma rewriteText_unchanged_witness :
  rewriteText "see example.org/git, hub.com" "github.com" "gh.example.org"
  = Normal "see example.org/git, hub.com".
Proof.
  apply (rewriteText_unchanged _ "github.com" _ "github").
  - reflexivity.
  - now exists "", ".com".
  - reflexivity.
  - reflexivity.
Defined.

Lemma replaceProxyHost_without_chunk (txt proxy origin chunk : string)
  (pathnameRegex : option string) :
  hostname_ok proxy -> has_chunk proxy chunk -> dot_free (chars chunk) ->
  includes txt chunk = false ->
  truthy pathnameRegex = false \/
  (exists rp, RegExp.parse (strip_caret (to_string pathnameRegex)) = Some rp) ->
  replaceProxyHost txt proxy pathnameRegex origin = Normal txt.
Proof.
  intros Hok Hchunk Hd Hno Hp. unfold replaceProxyHost.
  destruct (truthy pathnameRegex) eqn:Ht.
  - destruct Hp as [Hp | (rp & Hrp)]; [discriminate|].
    cbn [new_RegExp string_replace fragment]. unfold read_RegExp.
    rewrite (parse_host_path_pattern proxy _ rp Hok Hrp). cbn [bind].
    rewrite replace_eq. f_equal. rewrite <- (text_chars txt) at 2. f_equal.
    destruct (has_chunk_chars proxy chunk Hchunk) as (a & rest & Heq).
    apply (replace_at_no_match _ _
             (fun l => contains (chars chunk) l = false)).
    + intros c l. apply contains_tail.
    + intros bef aft Hc. apply match_at_host_path_none.
      destruct (host_match (chars proxy) (RegExp.State bef aft)) as [y|] eqn:Hm;
        [|exact I].
      rewrite Heq in Hm. apply host_match_contains_chunk in Hm; [|exact Hd].
      cbn [RegExp.after] in Hm. congruence.
    + exact Hno.
  - now apply (rewriteText_without_chunk txt proxy origin chunk).
Qed.

(** X15.  The first replacement of the body leaves such a text as it is
    too, without a pathname filter and with one that is read. *)
Theorem replaceProxyHost_unchanged (txt proxy origin chunk : string)
  (pathnameRegex : option string) :
  hostname_ok proxy -> has_chunk proxy chunk -> dot_free (chars chunk) ->
  includes txt chunk = false ->
  truthy pathnameRegex = false \/
  (exists rp, RegExp.parse (strip_caret (to_string pathnameRegex)) = Some rp) ->
  replaceProxyHost txt proxy pathnameRegex origin = Normal txt.
Proof. apply replaceProxyHost_without_chunk. Qed.

Lemma replaceProxyHost_unchanged_witness :
  replaceProxyHost "see example.org/user" "github.com" (Some "^/user")
    "gh.example.org"
  = Normal "see example.org/user".
Proof.
  apply (replaceProxyHost_unchanged _ "github.com" _ "github").
  - reflexivity.
  - now exists "", ".com".
  - reflexivity.
  - reflexivity.
  - right. eexists. vm_compute. reflexivity.
Defined.

(** X16.  With the base hostname ["github.com"], a body in which the text
    [github] does not occur comes out of [replaceResponseText] as it went
    in, for either host of the pair. *)
Theorem replaceResponseText_github_unchanged (r : Response)
  (path origin : string) (pathnameRegex : option string) :
  includes (body_text r) "github" = false ->
  truthy pathnameRegex = false \/
  (exists rp, RegExp.parse (strip_caret (to_string pathnameRegex)) = Some rp) ->
  replaceResponseText r (getGitHubProxyHost "github.com" path) pathnameRegex
    origin (Some "github.com")
  = Normal (body_text r).
Proof.
  intros Hno Hp. unfold replaceResponseText, getGitHubProxyHost.
  rewrite !String.eqb_refl. cbn [andb].
  destruct (isGitHubAPIPath path).
  - rewrite (replaceProxyHost_without_chunk _ "api.github.com" _ "github");
      [| reflexivity | now exists "api.", ".com" | reflexivity
       | exact Hno | exact Hp ].
    cbn [bind].
    apply (rewriteText_without_chunk _ _ _ "github");
      [ reflexivity | now exists "", ".com" | reflexivity | exact Hno ].
  - rewrite (replaceProxyHost_without_chunk _ "github.com" _ "github");
      [| reflexivity | now exists "", ".com" | reflexivity
       | exact Hno | exact Hp ].
    cbn [bind].
    apply (rewriteText_without_chunk _ _ _ "github");
      [ reflexivity | now exists "api.", ".com" | reflexivity | exact Hno ].
Qed.

Lemma replaceResponseText_github_unchanged_witness :
  replaceResponseText (response_with [] "see example.org/user")
    (getGitHubProxyHost "github.com" "/user/x") (Some "^/user")
    "gh.example.org" (Some "github.com")
  = Normal "see example.org/user".
Proof.
  apply (replaceResponseText_github_unchanged
           (response_with [] "see example.org/user") "/user/x").
  - reflexivity.
  - right. eexists. vm_compute. reflexivity.
Defined.

(** ** The hostname by itself *)

Lemma hostname_char_matches_itself (c : ascii) :
  hostname_char c = true -> RegExp.atom_matches (host_atom c) c = true.
Proof.
  destruct c as [[] [] [] [] [] [] [] []]; vm_compute;
    intros H; (reflexivity || discriminate H).
Qed.

Lemma eat_self (h : list ascii) :
  forallb hostname_char h = true ->
  forall bef rest,
    eat h (RegExp.State bef (h ++ rest))
    = Some (RegExp.State (rev h ++ bef) rest).
Proof.
  induction h as [|c h IH]; intros Hok bef rest; [reflexivity|].
  cbn [forallb] in Hok. apply andb_true_iff in Hok as [Hc Hok].
  cbn [List.app eat RegExp.after RegExp.before].
  rewrite (hostname_char_matches_itself c Hc), (IH Hok).
  cbn [rev]. now rewrite <- app_assoc.
Qed.

Lemma rewriteText_of_hostname (h to : string) :
  hostname_ok h -> word_ended h -> hostname_ok to ->
  rewriteText h h to = Normal to.
Proof.
  intros Hok [Hfirst Hlast] Hto. rewrite (rewriteText_eq h h to Hok).
  f_equal. rewrite <- (text_chars to) at 2. f_equal.
  assert (Hne : chars h <> []).
  { intros E. rewrite E in Hfirst. discriminate. }
  fold (rewrite_at (chars h) (chars to) (RegExp.start (chars h))).
  rewrite rewrite_at_eq by (assumption || now apply hostname_plain).
  assert (Hm : host_match (chars h) (RegExp.start (chars h))
               = Some (RegExp.State (rev (chars h)) [])).
  { unfold host_match, RegExp.start, after_dot, RegExp.at_boundary,
      RegExp.word_before, RegExp.word_after.
    cbn [RegExp.before RegExp.after negb andb].
    change (match chars h with [] => false | c :: _ => is_word_char c end)
      with (word_head (chars h)).
    rewrite Hfirst. cbn [xorb].
    pose proof (eat_self (chars h) Hok [] []) as He.
    rewrite !app_nil_r in He. rewrite He.
    cbn [RegExp.before RegExp.after].
    change (match rev (chars h) with [] => false | c :: _ => is_word_char c end)
      with (word_head (rev (chars h))).
    now rewrite Hlast. }
  rewrite Hm, rewrite_at_eq by (assumption || now apply hostname_plain).
  assert (Hn : host_match (chars h) (RegExp.State (rev (chars h)) []) = None).
  { unfold host_match.
    destruct (negb (after_dot (RegExp.State (rev (chars h)) []))
              && RegExp.at_boundary (RegExp.State (rev (chars h)) []));
      [|reflexivity].
    destruct (chars h) as [|c l]; [contradiction | reflexivity]. }
  rewrite Hn. cbn [RegExp.after]. apply app_nil_r.
Qed.

(** X19.  A text that is the hostname and nothing else is rewritten to the
    replacement, for every hostname that starts and ends with a letter,
    a digit or an underscore; its dots are matched by the dots of the
    pattern. *)
Theorem hostname_alone_is_rewritten (h to : string) :
  hostname_ok h -> word_ended h -> hostname_ok to ->
  rewriteText h h to = Normal to.
Proof. apply rewriteText_of_hostname. Qed.

Lemma hostname_alone_is_rewritten_witness :
  rewriteText "gh.example.org" "gh.example.org" "api.github.com"
  = Normal "api.github.com".
Proof.
  apply (hostname_alone_is_rewritten "gh.example.org" "api.github.com").
  - reflexivity.
  - split; reflexivity.
  - reflexivity.
Defined.

Lemma contains_self (l : list ascii) : contains l l = true.
Proof.
  apply starts_with_contains. rewrite <- (app_nil_r l) at 2.
  apply starts_with_app.
Qed.

(** For a hostname of hostname characters the pattern is always read, so
    the loop over the headers completes. *)
Lemma rewriteHeaders_succeeds (h : Headers) (from to : string) :
  hostname_ok from -> exists h', rewriteHeaders h from to = Normal h'.
Proof.
  intros Hok. induction h as [|[k v] h [h' IH]]; [now exists []|].
  cbn [rewriteHeaders]. rewrite IH.
  destruct (includes v from); [rewrite (rewriteText_eq v from to Hok)|];
    cbn [bind]; eexists; reflexivity.
Qed.

(** X20.  A request whose [host] header names the origin is sent on, and
    in the request that is sent the [host] header names the proxy host. *)
Theorem host_header_names_the_proxy (request : Request) (u : URL)
  (proxy origin : string) :
  hostname_ok origin -> word_ended origin -> hostname_ok proxy ->
  get (headers request) "host" = Some origin ->
  exists nr,
    createNewRequest request u proxy origin = Normal nr /\
    get (headers nr) "host" = Some proxy.
Proof.
  intros Hok Hwe Hp Hget. unfold createNewRequest.
  destruct (rewriteHeaders_succeeds (headers request) origin proxy Hok)
    as [h Hh].
  rewrite Hh. cbn [bind]. eexists. split; [reflexivity|]. cbn [headers].
  pose proof (rewriteHeaders_get _ _ _ _ "host" Hh) as Hg.
  rewrite Hget in Hg. unfold includes in Hg. rewrite contains_self in Hg.
  destruct Hg as (v' & Hv & Hg).
  rewrite (rewriteText_of_hostname origin proxy Hok Hwe Hp) in Hv.
  injection Hv as <-.
  destruct (String.eqb proxy "api.github.com"); [|exact Hg].
  destruct (has h "user-agent"), (has h "accept");
    rewrite ?get_set_other by discriminate; try exact Hg.
  - destruct (has (set h "user-agent" "Cloudflare-Workers-Proxy") "accept");
      rewrite ?get_set_other by discriminate; exact Hg.
  - destruct (has (set h "user-agent" "Cloudflare-Workers-Proxy") "accept");
      rewrite ?get_set_other by discriminate; exact Hg.
Qed.

Lemma host_header_names_the_proxy_witness :
  exists nr,
    createNewRequest
      (request_of "gh.example.org" "/a" [("host", "gh.example.org")])
      (upstream_url (env_of "github.com")
         (request_of "gh.example.org" "/a" [("host", "gh.example.org")]))
      "github.com" "gh.example.org" = Normal nr /\
    get (headers nr) "host" = Some "github.com".
Proof.
  apply (host_header_names_the_proxy
           (request_of "gh.example.org" "/a" [("host", "gh.example.org")])).
  - reflexivity.
  - split; reflexivity.
  - reflexivity.
  - reflexivity.
Defined.

(** ** Headers there and back *)

Lemma rewriteText_back (s a b : string) :
  word_only a -> word_only b -> includes s b = false ->
  exists s1, rewriteText s a b = Normal s1 /\ rewriteText s1 b a = Normal s.
Proof.
  intros Ha Hb Hno.
  rewrite (rewriteText_eq s a b (word_only_hostname a Ha)).
  eexists. split; [reflexivity|].
  rewrite (rewriteText_eq _ b a (word_only_hostname b Hb)).
  rewrite chars_text. f_equal. rewrite <- (text_chars s) at 2. f_equal.
  destruct Ha as [Hane Ha], Hb as [Hbne Hb].
  apply (round_trip_at (chars a) (chars b) Ha (chars_nonempty a Hane)
           Hb (chars_nonempty b Hbne) (length (chars s)));
    [apply le_n | now split | exact Hno].
Qed.

Lemma has_chunk_self (h : string) : has_chunk h h.
Proof.
  exists "", "". apply chars_inj. rewrite !chars_append. cbn.
  now rewrite app_nil_r.
Qed.

Lemma value_there_and_back (v a b : string) :
  word_only a -> word_only b -> includes v b = false ->
  exists v1,
    (if includes v a then rewriteText v a b else Normal v) = Normal v1 /\
    (if includes v1 b then rewriteText v1 b a else Normal v1) = Normal v.
Proof.
  intros Ha Hb Hno. destruct (includes v a).
  - destruct (rewriteText_back v a b Ha Hb Hno) as (s1 & H1 & H2).
    exists s1. split; [exact H1|].
    destruct (includes s1 b) eqn:Hinc; [exact H2|].
    rewrite (rewriteText_without_chunk s1 b a b) in H2.
    + exact H2.
    + now apply word_only_hostname.
    + apply has_chunk_self.
    + apply word_chars_dot_free. now destruct Hb.
    + exact Hinc.
  - exists v. split; [reflexivity|]. now rewrite Hno.
Qed.

Lemma headers_there_and_back (h : Headers) (a b : string) :
  word_only a -> word_only b -> no_value_includes h b ->
  exists h1, rewriteHeaders h a b = Normal h1 /\
             rewriteHeaders h1 b a = Normal h.
Proof.
  intros Ha Hb. induction h as [|[k v] h IH]; intros Hno.
  - now exists [].
  - destruct IH as (h1 & H1 & H2).
    { intros k' v' Hin. apply (Hno k' v'). now right. }
    destruct (value_there_and_back v a b Ha Hb (Hno k v (or_introl eq_refl)))
      as (v1 & Hv1 & Hv2).
    exists ((k, v1) :: h1). cbn [rewriteHeaders].
    rewrite Hv1, H1, Hv2, H2. split; reflexivity.
Qed.

(** X17.  Headers with one entry per name, rewritten from [a] to [b], as
    on the way out, and then from [b] to [a], as on the way back, are the
    headers one started with, for hostnames of word characters and values
    in which [b] does not occur. *)
Theorem headers_round_trip (h : Headers) (a b : string) :
  one_per_name h = true ->
  word_only a -> word_only b -> no_value_includes h b ->
  (h1 <- rewriteHeaders h a b ;; rewriteHeaders h1 b a) = Normal h.
Proof.
  intros _ Ha Hb Hno.
  destruct (headers_there_and_back h a b Ha Hb Hno) as (h1 & H1 & H2).
  now rewrite H1.
Qed.

Lemma headers_round_trip_witness :
  (h1 <- rewriteHeaders [("referer", "http://intranet/a"); ("accept", "*/*")]
           "intranet" "localhost" ;;
   rewriteHeaders h1 "localhost" "intranet")
  = Normal [("referer", "http://intranet/a"); ("accept", "*/*")].
Proof.
  apply (headers_round_trip
           [("referer", "http://intranet/a"); ("accept", "*/*")]
           "intranet" "localhost").
  - reflexivity.
  - split; [discriminate | reflexivity].
  - split; [discriminate | reflexivity].
  - intros k v [[= <- <-] | [[= <- <-] | []]]; vm_compute; reflexivity.
Defined.

(** ** The round trip of hostnames *)

Local Close Scope string_scope.
















Lemma head_label_word_only (h : list ascii) :
  forallb is_word_char h = true -> head_label h = h.
Proof.
  induction h as [|c h IH]; [reflexivity|]. cbn [forallb head_label].
  intros H. apply andb_true_iff in H as [Hc H]. rewrite Hc.
  now rewrite IH.
Qed.





(** A hostname without a dot is matched only where it is written. *)
Lemma literal_matches_dot_free (a : list ascii) :
  dot_free a -> forall aft bef, literal_matches a bef aft = true.
Proof.
  intros Hd. induction aft as [|c aft IH]; intros bef; cbn [literal_matches].
  - destruct (host_match a (RegExp.State bef [])) as [y|] eqn:Hm;
      [|reflexivity].
    pose proof (host_match_literal a _ _ Hd Hm) as H.
    cbn [RegExp.after] in H. now rewrite H.
  - rewrite IH, andb_true_r.
    destruct (host_match a (RegExp.State bef (c :: aft))) as [y|] eqn:Hm;
      [|reflexivity].
    exact (host_match_literal a _ _ Hd Hm).
Qed.


Local Open Scope string_scope.



(** The two conditions on the text in the terms of the claim: a hostname
    without a dot is matched only where it is written, and the first label
    of a hostname of one word is the hostname. *)
Lemma conditions_of_the_round_trip (s a b : string) :
  (dot_free (chars a) -> only_literal_matches s a = true) /\
  (word_only b -> first_label b = b).
Proof.
  split.
  - intros Hd. now apply literal_matches_dot_free.
  - intros [_ Hw]. unfold first_label.
    now rewrite (head_label_word_only _ Hw), text_chars.
Qed.

(** Each condition of the amended claim is needed.  A dot of [a] stands
    for any character, so a text without [a] can come back changed; a
    hostname [b] that ends with a dot is not found again where it was put;
    and a hostname [a] that ends with a dot is found before a word
    character, where [b] is not found again. *)
Lemma round_trip_needs_its_conditions :
  only_guarded_occurrences "githubXcom" "github.com" = true /\
  includes "githubXcom" "x.example" = false /\
  round_trip "githubXcom" "github.com" "x.example" = Normal "github.com" /\
  only_guarded_occurrences "see x" "x" = true /\
  includes "see x" "b." = false /\
  round_trip "see x" "x" "b." = Normal "see b." /\
  only_literal_matches "x.z" "x." = true /\
  includes "x.z" (first_label "y") = false /\
  round_trip "x.z" "x." "y" = Normal "yz".
Proof. repeat split; vm_compute; reflexivity. Qed.
